(** * Groundwater contamination model: one-dimensional instantaneous release

    A shallow embedding of [GroundwaterContaminationModel]
    (groundwater_contamination_model.py) and of the breakthrough analysis of
    groundwater_calculator.py and streamlit_app.py.

    Numbers.  The program computes on IEEE doubles through numpy.  Here a
    float is read as a real number of [R]: rounding, infinities and NaN are
    not represented, so every statement below is about the arithmetic the
    source writes down, evaluated exactly.  Comparisons are decided with the
    [Rle_dec] family, array values are lists. *)

From Stdlib Require Import Reals Lra Lia String List Sorted Bool Arith ZArith.
Import ListNotations.

Open Scope R_scope.

(** ** Exceptions and results *)

Inductive exn : Type :=
| ValueError (msg : string)
| IndexError.

Inductive result (A : Type) : Type :=
| Ok (a : A)
| Raise (e : exn).

Arguments Ok {A} a.
Arguments Raise {A} e.

Definition bind {A B : Type} (r : result A) (k : A -> result B) : result B :=
  match r with
  | Ok a => k a
  | Raise e => Raise e
  end.

Notation "x <- r ;; k" := (bind r (fun x => k))
  (at level 61, r at next level, right associativity).

(** ** Comparisons on floats, as booleans *)

Definition Rleb (a b : R) : bool := if Rle_dec a b then true else false.
Definition Rltb (a b : R) : bool := if Rlt_dec a b then true else false.
Definition Rgtb (a b : R) : bool := if Rgt_dec a b then true else false.

(** ** numpy values

    Only the two shapes the program uses: a scalar (a Python float or a
    0-d array) and a one-dimensional array. *)

Inductive ndarray : Type :=
| Scalar (v : R)
| Array (vs : list R).

Definition entries (a : ndarray) : list R :=
  match a with
  | Scalar v => [v]
  | Array vs => vs
  end.

(** Same shape: both scalars, or arrays of one length. *)
Definition same_shape (a b : ndarray) : Prop :=
  match a, b with
  | Scalar _, Scalar _ => True
  | Array xs, Array ys => length xs = length ys
  | _, _ => False
  end.

(** A unary ufunc ([np.sqrt], [np.exp], unary minus, an operation with a
    Python scalar on one side). *)
Definition nd_map (f : R -> R) (a : ndarray) : ndarray :=
  match a with
  | Scalar v => Scalar (f v)
  | Array vs => Array (map f vs)
  end.

Fixpoint zip_with (f : R -> R -> R) (xs ys : list R) : list R :=
  match xs, ys with
  | x :: xs', y :: ys' => f x y :: zip_with f xs' ys'
  | _, _ => []
  end.

(** A binary ufunc with numpy's broadcasting on shapes [()] and [(k,)]:
    a scalar or a one-element array stretches, two arrays of different
    lengths (neither of length one) raise. *)
Definition nd_map2 (f : R -> R -> R) (a b : ndarray) : result ndarray :=
  match a, b with
  | Scalar x, Scalar y => Ok (Scalar (f x y))
  | Scalar x, Array ys => Ok (Array (map (fun y => f x y) ys))
  | Array xs, Scalar y => Ok (Array (map (fun x => f x y) xs))
  | Array xs, Array ys =>
      if Nat.eqb (length xs) (length ys) then Ok (Array (zip_with f xs ys))
      else match xs, ys with
           | [x], _ => Ok (Array (map (fun y => f x y) ys))
           | _, [y] => Ok (Array (map (fun x => f x y) xs))
           | _, _ => Raise (ValueError "operands could not be broadcast together")
           end
  end.

(** [np.any(np.asarray(t) <= 0)] *)
Definition any_le_0 (t : ndarray) : bool :=
  existsb (fun v => Rleb v 0) (entries t).

(** [np.zeros_like(x)] *)
Definition zeros_like (x : ndarray) : ndarray := nd_map (fun _ => 0) x.

(** [np.clip(e, lo, hi)], that is [minimum(maximum(e, lo), hi)] *)
Definition clip (e lo hi : R) : R := Rmin (Rmax e lo) hi.

(** ** The model *)

Record Model : Type := mkModel {
  m : R;             (* released mass, g *)
  W : R;             (* cross-section area, m^2 *)
  n : R;             (* effective porosity *)
  u : R;             (* groundwater velocity, m/d *)
  DL : R;            (* longitudinal dispersion coefficient, m^2/d *)
  lambda_decay : R   (* reaction coefficient, 1/d *)
}.

(** [_validate_parameters]: the six tests in the order of the source, the
    first that fails raises. *)
Definition _validate_parameters (self : Model) : result unit :=
  if Rleb (m self) 0 then
    Raise (ValueError "污染物质量必须大于0")
  else if Rleb (W self) 0 then
    Raise (ValueError "横截面积必须大于0")
  else if negb (Rltb 0 (n self) && Rleb (n self) 1) then
    Raise (ValueError "有效孔隙度必须在0-1之间")
  else if Rltb (u self) 0 then
    Raise (ValueError "地下水流速不能为负")
  else if Rleb (DL self) 0 then
    Raise (ValueError "纵向弥散系数必须大于0")
  else if Rltb (lambda_decay self) 0 then
    Raise (ValueError "反应系数不能为负")
  else Ok tt.

(** [__init__]: store the six arguments, then validate. *)
Definition init (m W n u DL lambda_decay : R) : result Model :=
  let self := mkModel m W n u DL lambda_decay in
  _ <- _validate_parameters self ;;
  Ok self.

(** [calculate_concentration(self, x, t)] *)
Definition calculate_concentration (self : Model) (x t : ndarray)
  : result ndarray :=
  if any_le_0 t then Ok (zeros_like x)
  else
    let coeff :=
      nd_map (fun d => m self / d)
        (nd_map (fun s => 2 * n self * W self * s)
           (nd_map sqrt (nd_map (fun v => PI * DL self * v) t))) in
    let decay_term := nd_map (fun v => - lambda_decay self * v) t in
    d <- nd_map2 Rminus x (nd_map (fun v => u self * v) t) ;;
    transport_term <-
      nd_map2 Rdiv (nd_map Ropp (nd_map (fun v => v ^ 2) d))
        (nd_map (fun v => 4 * DL self * v) t) ;;
    exponent <- nd_map2 Rplus decay_term transport_term ;;
    concentration <-
      nd_map2 Rmult coeff
        (nd_map exp (nd_map (fun e => clip e (-700) 700) exponent)) ;;
    Ok (nd_map (fun c => Rmax c 0) concentration).

(** ** Scans over a concentration sample *)

(** [a > limit] on an array: the boolean mask. *)
Definition gt_mask (concentrations : list R) (limit : R) : list bool :=
  map (fun c => Rgtb c limit) concentrations.

(** [np.where(mask)[0]]: the indices of the true entries, increasing;
    [where_from k] numbers the entries from [k]. *)
Fixpoint where_from (k : nat) (mask : list bool) : list nat :=
  match mask with
  | [] => []
  | b :: mask' =>
      if b then k :: where_from (S k) mask' else where_from (S k) mask'
  end.

Definition np_where (mask : list bool) : list nat := where_from 0 mask.

(** [a[i]] for a non-negative index: out of range raises. *)
Definition getitem (a : list R) (i : nat) : result R :=
  match nth_error a i with
  | Some v => Ok v
  | None => Raise IndexError
  end.

(** [np.max(a)]: an empty array raises. *)
Definition np_max (a : list R) : result R :=
  match a with
  | [] => Raise (ValueError "zero-size array to reduction operation maximum which has no identity")
  | c :: rest => Ok (fold_left Rmax rest c)
  end.

(** [np.argmax(a)]: the first index of the maximum. *)
Fixpoint argmax_from (best : R) (besti i : nat) (a : list R) : nat :=
  match a with
  | [] => besti
  | c :: rest =>
      if Rgtb c best then argmax_from c i (S i) rest
      else argmax_from best besti (S i) rest
  end.

Definition np_argmax (a : list R) : result nat :=
  match a with
  | [] => Raise (ValueError "attempt to get argmax of an empty sequence")
  | c :: rest => Ok (argmax_from c 0%nat 1%nat rest)
  end.

(** [find_concentration_range(self, x, concentrations, limit)]: the pair
    [(x[indices[0]], x[indices[-1]])], or [(None, None)]. *)
Definition find_concentration_range (x concentrations : list R) (limit : R)
  : result (option R * option R) :=
  let indices := np_where (gt_mask concentrations limit) in
  match indices with
  | [] => Ok (None, None)
  | i0 :: _ =>
      first <- getitem x i0 ;;
      final <- getitem x (last indices i0) ;;
      Ok (Some first, Some final)
  end.

(** ** Breakthrough analysis

    Both front ends run the same scan over the concentrations of one
    position, [concentrations] being the array bound on the line before
    (the result of [calculate_concentration(pos, t_range)]).  The number
    formatting of the printed and tabulated values is left out. *)

(** A displayed value: a float or a text. *)
Inductive cell : Type :=
| Num (v : R)
| Str (s : string).

Record breakthrough : Type := mkBreakthrough {
  detection_time : cell;
  exceed_time : cell;
  max_conc : R;
  max_time : R
}.

(** [t_range[indices[0]] if indices.size > 0 else None] *)
Definition first_time (t_range : list R) (indices : list nat)
  : result (option R) :=
  match indices with
  | [] => Ok None
  | i :: _ => v <- getitem t_range i ;; Ok (Some v)
  end.

(** groundwater_calculator.py, [_print_breakthrough_analysis], the body of
    the loop: the text is the [else] branch of the same conditional. *)
Definition print_breakthrough_analysis (t_range concentrations : list R)
    (standard_limit detection_limit : R) : result breakthrough :=
  let detection_indices := np_where (gt_mask concentrations detection_limit) in
  detection_time <-
    match detection_indices with
    | [] => Ok (Str "未检出")
    | i :: _ => v <- getitem t_range i ;; Ok (Num v)
    end ;;
  let exceed_indices := np_where (gt_mask concentrations standard_limit) in
  exceed_time <-
    match exceed_indices with
    | [] => Ok (Str "未超标")
    | i :: _ => v <- getitem t_range i ;; Ok (Num v)
    end ;;
  max_conc <- np_max concentrations ;;
  i <- np_argmax concentrations ;;
  max_time <- getitem t_range i ;;
  Ok (mkBreakthrough detection_time exceed_time max_conc max_time).

(** [v if v else text] on a value that is a float or [None]: Python tests
    the truth of [v], and the float zero is false as [None] is. *)
Definition if_truthy_else (v : option R) (text : string) : cell :=
  match v with
  | None => Str text
  | Some t => if Req_dec_T t 0 then Str text else Num t
  end.

(** streamlit_app.py, the scheme-two block, the body of the loop over the
    positions up to the row appended to [breakthrough_results]. *)
Definition breakthrough_results (t_range concentrations : list R)
    (standard_limit detection_limit : R) : result breakthrough :=
  let detection_indices := np_where (gt_mask concentrations detection_limit) in
  detection_time <- first_time t_range detection_indices ;;
  let exceed_indices := np_where (gt_mask concentrations standard_limit) in
  exceed_time <- first_time t_range exceed_indices ;;
  max_conc <- np_max concentrations ;;
  i <- np_argmax concentrations ;;
  max_time <- getitem t_range i ;;
  Ok (mkBreakthrough (if_truthy_else detection_time "未检出")
                     (if_truthy_else exceed_time "未超标")
                     max_conc max_time).

(** ** Exceptions beyond the model's

    The analysis and the front ends can fail in two more ways: formatting
    [None] as a number and looking up a missing key. *)

Inductive exception : Type :=
| Of (e : exn)
| TypeError (msg : string)
| KeyError (key : string).

Inductive outcome (A : Type) : Type :=
| Return (a : A)
| Throw (e : exception).

Arguments Return {A} a.
Arguments Throw {A} e.

Definition lift {A : Type} (r : result A) : outcome A :=
  match r with
  | Ok a => Return a
  | Raise e => Throw (Of e)
  end.

Definition and_then {A B : Type} (r : outcome A) (k : A -> outcome B) : outcome B :=
  match r with
  | Return a => k a
  | Throw e => Throw e
  end.

Notation "x <~ r ;; k" := (and_then r (fun x => k))
  (at level 61, r at next level, right associativity).

(** ** Analysis of one profile *)

(** The text of a range: [RangeText a b] stands for the formatted
    [f"{a:.0f}m - {b:.0f}m"] (the digits are left out), [NoRange s] is the
    fixed text [s]. *)
Inductive range_text : Type :=
| RangeText (a b : R)
| NoRange (s : string).

(** [f"{start:.0f}m - {end:.0f}m" if start is not None else none]:
    formatting [None] with [.0f] is a [TypeError]. *)
Definition format_range (start final : option R) (none : string)
  : outcome range_text :=
  match start with
  | None => Return (NoRange none)
  | Some a =>
      match final with
      | Some b => Return (RangeText a b)
      | None => Throw (TypeError "unsupported format string passed to NoneType.__format__")
      end
  end.

(** The dictionary [analyze_results] returns, key by key. *)
Record analysis : Type := mkAnalysis {
  max_concentration : R;
  max_position : R;
  exceed_range : range_text;
  influence_range : range_text;
  exceed_start : option R;
  exceed_end : option R;
  influence_start : option R;
  influence_end : option R
}.

(** [analyze_results(self, x, concentrations, standard_limit, detection_limit)] *)
Definition analyze_results (x concentrations : list R)
    (standard_limit detection_limit : R) : outcome analysis :=
  max_concentration <~ lift (np_max concentrations) ;;
  i <~ lift (np_argmax concentrations) ;;
  max_position <~ lift (getitem x i) ;;
  exceed <~ lift (find_concentration_range x concentrations standard_limit) ;;
  exceed_range <~ format_range (fst exceed) (snd exceed) "无超标" ;;
  influence <~ lift (find_concentration_range x concentrations detection_limit) ;;
  influence_range <~ format_range (fst influence) (snd influence) "无影响" ;;
  Return (mkAnalysis max_concentration max_position exceed_range influence_range
            (fst exceed) (snd exceed) (fst influence) (snd influence)).

(** ** Sample grids *)

(** The least integer not below [r]. *)
Definition ceil (r : R) : Z := (1 - up (- r))%Z.

(** [np.arange(start, stop, step)] for a step that is not 0: the values
    [start + k * step] for [k] below [ceil((stop - start) / step)], none
    when that count is not positive.  (For a step of 0 numpy raises; the
    front ends' steps are positive, see the theorems.) *)
Definition np_arange (start stop step : R) : list R :=
  map (fun k => start + INR k * step)
      (seq 0 (Z.to_nat (ceil ((stop - start) / step)))).

(** ** The dashboard's model (streamlit_app.py) *)

(** The preset block: a preset other than the custom one replaces the five
    widget values [m, W, n, u, DL]; the decay rate stays the widget's. *)
Definition preset_parameters (preset : string) (chosen : R * R * R * R * R)
  : R * R * R * R * R :=
  if negb (String.eqb preset "自定义") then
    if String.eqb preset "典型砂土含水层" then (100.0, 2.0, 0.25, 0.5, 1.0)
    else if String.eqb preset "粘土含水层" then (100.0, 2.0, 0.15, 0.01, 0.1)
    else if String.eqb preset "裂隙岩石含水层" then (100.0, 2.0, 0.05, 1.0, 5.0)
    else if String.eqb preset "高渗透性含水层" then (100.0, 2.0, 0.35, 2.0, 10.0)
    else chosen
  else chosen.

(** [model = GroundwaterContaminationModel(m, W, n, u, DL, lambda_decay)]
    after the preset block; [Ok] is [model_created = True]. *)
Definition dashboard_model (preset : string) (m W n u DL lambda_decay : R)
  : result Model :=
  let '(m, W, n, u, DL) := preset_parameters preset (m, W, n, u, DL) in
  init m W n u DL lambda_decay.

(** ** Sensitivity sweeps *)

(** A [for] loop that collects what its body computes, stopping at the
    first exception. *)
Fixpoint for_each {A B : Type} (body : A -> outcome B) (items : list A)
  : outcome (list B) :=
  match items with
  | [] => Return []
  | a :: rest =>
      b <~ body a ;;
      bs <~ for_each body rest ;;
      Return (b :: bs)
  end.

(** [x_range_sens = np.arange(-50, 101, 2)] *)
Definition x_range_sens : ndarray := Array (np_arange (-50) 101 2).

(** The three sweeps of the dashboard's third tab: for every test value a
    fresh model and its profile over [x_range_sens] at the analysis time;
    the result lists the plotted curves with their test values. *)
Definition velocity_sweep (m W n u DL lambda_decay analysis_time : R)
  : outcome (list (R * ndarray)) :=
  for_each
    (fun factor =>
       let test_value := u * factor in
       model_temp <~ lift (init m W n test_value DL lambda_decay) ;;
       concentrations <~
         lift (calculate_concentration model_temp x_range_sens (Scalar analysis_time)) ;;
       Return (test_value, concentrations))
    [0.5; 0.8; 1.0; 1.5; 2.0].

Definition dispersion_sweep (m W n u DL lambda_decay analysis_time : R)
  : outcome (list (R * ndarray)) :=
  for_each
    (fun factor =>
       let test_value := DL * factor in
       model_temp <~ lift (init m W n u test_value lambda_decay) ;;
       concentrations <~
         lift (calculate_concentration model_temp x_range_sens (Scalar analysis_time)) ;;
       Return (test_value, concentrations))
    [0.2; 0.5; 1.0; 2.0; 5.0].

Definition reaction_sweep (m W n u DL analysis_time : R)
  : outcome (list (R * ndarray)) :=
  for_each
    (fun test_value =>
       model_temp <~ lift (init m W n u DL test_value) ;;
       concentrations <~
         lift (calculate_concentration model_temp x_range_sens (Scalar analysis_time)) ;;
       Return (test_value, concentrations))
    [0; 0.001; 0.005; 0.01; 0.02].

(** ** The command-line calculator (groundwater_calculator.py)

    The calculator holds the model and the dictionary of the current
    parameters.  [input] replies are given as strings; Python's [float] on
    a string is the parameter [float]: [None] where it raises a
    [ValueError].  Of what is printed only the line of an exception handler
    is kept. *)

Record GroundwaterCalculator : Type := mkCalculator {
  model : option Model;
  current_params : list (string * R)
}.

(** [__init__]: no model, an empty dictionary. *)
Definition new_calculator : GroundwaterCalculator := mkCalculator None [].

(** [d[key]] *)
Fixpoint getkey (d : list (string * R)) (key : string) : outcome R :=
  match d with
  | [] => Throw (KeyError key)
  | (k, v) :: rest => if String.eqb k key then Return v else getkey rest key
  end.

(** [float(input(prompt) or default)]: the default for an empty reply. *)
Definition float_or (float : string -> option R) (reply : string) (default : R)
  : result R :=
  if String.eqb reply "" then Ok default
  else match float reply with
       | Some v => Ok v
       | None => Raise (ValueError "could not convert string to float")
       end.

(** [input_parameters]: the eight replies in the order of the prompts.
    Returns the calculator afterwards and the line the handler printed, if
    an exception was caught (the second handler's line ends with the text
    of the exception, left out here; no exception reaches it). *)
Definition input_parameters (float : string -> option R)
    (self : GroundwaterCalculator)
    (r_m r_W r_n r_u r_DL r_lambda r_standard r_detection : string)
  : GroundwaterCalculator * option string :=
  let attempt :=
    m <- float_or float r_m 100 ;;
    W <- float_or float r_W 2 ;;
    n <- float_or float r_n 0.3 ;;
    u <- float_or float r_u 0.1 ;;
    DL <- float_or float r_DL 0.5 ;;
    lambda_decay <- float_or float r_lambda 0 ;;
    standard_limit <- float_or float r_standard 0.5 ;;
    detection_limit <- float_or float r_detection 0.05 ;;
    model <- init m W n u DL lambda_decay ;;
    Ok (mkCalculator (Some model)
          [("m", m); ("W", W); ("n", n); ("u", u); ("DL", DL);
           ("lambda_decay", lambda_decay);
           ("standard_limit", standard_limit);
           ("detection_limit", detection_limit)]%string) in
  match attempt with
  | Ok self' => (self', None)
  | Raise (ValueError _) => (self, Some "❌ 输入错误: 请输入有效的数值"%string)
  | Raise IndexError => (self, Some "❌ 参数设置失败: "%string)
  end.

(** [_analyze_velocity_sensitivity]: the curves it plots. *)
Definition _analyze_velocity_sensitivity (float : string -> option R)
    (self : GroundwaterCalculator) (reply : string)
  : outcome (list (R * ndarray)) :=
  let p := current_params self in
  base_u <~ getkey p "u" ;;
  let u_values := map (fun factor => base_u * factor) [0.5; 0.8; 1.0; 1.5; 2.0] in
  t_pred <~ lift (float_or float reply 100) ;;
  curves <~
    for_each
      (fun u_val =>
         m <~ getkey p "m" ;;
         W <~ getkey p "W" ;;
         n <~ getkey p "n" ;;
         DL <~ getkey p "DL" ;;
         lambda_decay <~ getkey p "lambda_decay" ;;
         model_temp <~ lift (init m W n u_val DL lambda_decay) ;;
         concentrations <~
           lift (calculate_concentration model_temp x_range_sens (Scalar t_pred)) ;;
         Return (u_val, concentrations))
      u_values ;;
  _ <~ getkey p "standard_limit" ;;
  Return curves.

(** [_analyze_dispersion_sensitivity] *)
Definition _analyze_dispersion_sensitivity (float : string -> option R)
    (self : GroundwaterCalculator) (reply : string)
  : outcome (list (R * ndarray)) :=
  let p := current_params self in
  base_DL <~ getkey p "DL" ;;
  let DL_values := map (fun factor => base_DL * factor) [0.2; 0.5; 1.0; 2.0; 5.0] in
  t_pred <~ lift (float_or float reply 100) ;;
  curves <~
    for_each
      (fun DL_val =>
         m <~ getkey p "m" ;;
         W <~ getkey p "W" ;;
         n <~ getkey p "n" ;;
         u <~ getkey p "u" ;;
         lambda_decay <~ getkey p "lambda_decay" ;;
         model_temp <~ lift (init m W n u DL_val lambda_decay) ;;
         concentrations <~
           lift (calculate_concentration model_temp x_range_sens (Scalar t_pred)) ;;
         Return (DL_val, concentrations))
      DL_values ;;
  _ <~ getkey p "standard_limit" ;;
  Return curves.

(** [_analyze_reaction_sensitivity] *)
Definition _analyze_reaction_sensitivity (float : string -> option R)
    (self : GroundwaterCalculator) (reply : string)
  : outcome (list (R * ndarray)) :=
  let p := current_params self in
  let lambda_values := [0; 0.001; 0.005; 0.01; 0.02] in
  t_pred <~ lift (float_or float reply 100) ;;
  curves <~
    for_each
      (fun lambda_val =>
         m <~ getkey p "m" ;;
         W <~ getkey p "W" ;;
         n <~ getkey p "n" ;;
         u <~ getkey p "u" ;;
         DL <~ getkey p "DL" ;;
         model_temp <~ lift (init m W n u DL lambda_val) ;;
         concentrations <~
           lift (calculate_concentration model_temp x_range_sens (Scalar t_pred)) ;;
         Return (lambda_val, concentrations))
      lambda_values ;;
  _ <~ getkey p "standard_limit" ;;
  Return curves.

(** What [sensitivity_analysis] ends with. *)
Inductive sensitivity_report : Type :=
| NoModel                                   (* "请先设置模型参数" *)
| InvalidChoice                             (* "无效选择" *)
| Plotted (curves : list (R * ndarray))
| Failed (e : exception).                   (* "敏感性分析失败: {e}" *)

(** [sensitivity_analysis]: the reply to the menu and the reply to the
    analysis time. *)
Definition sensitivity_analysis (float : string -> option R)
    (self : GroundwaterCalculator) (choice reply : string) : sensitivity_report :=
  match model self with
  | None => NoModel
  | Some _ =>
      let run :=
        if String.eqb choice "1" then Some (_analyze_velocity_sensitivity float self reply)
        else if String.eqb choice "2" then Some (_analyze_dispersion_sensitivity float self reply)
        else if String.eqb choice "3" then Some (_analyze_reaction_sensitivity float self reply)
        else None in
      match run with
      | None => InvalidChoice
      | Some (Return curves) => Plotted curves
      | Some (Throw e) => Failed e
      end
  end.

(** ** The specification's reading of the formula *)

(** Clamping to [[lo, hi]], by cases. *)
Definition clamp (lo hi e : R) : R :=
  if Rlt_dec e lo then lo else if Rlt_dec hi e then hi else e.

(** The exponent [-decayRate t - (x - velocity t)^2 / (4 dispersionCoeff t)]. *)
Definition spec_exponent (M : Model) (x t : R) : R :=
  - (lambda_decay M * t) - (x - u M * t) * (x - u M * t) / (4 * (DL M * t)).

(** The coefficient [mass / (2 porosity crossSectionArea sqrt(pi dispersionCoeff t))]. *)
Definition spec_coefficient (M : Model) (t : R) : R :=
  m M / (2 * (n M * (W M * sqrt (PI * (DL M * t))))).

(** The reference expression: coefficient times exp of the clamped exponent,
    floored at 0. *)
Definition spec_concentration (M : Model) (x t : R) : R :=
  let c := spec_coefficient M t * exp (clamp (-700) 700 (spec_exponent M x t)) in
  if Rlt_dec c 0 then 0 else c.

(** The domain constraints of the six parameters. *)
Definition valid_parameters (M : Model) : Prop :=
  0 < m M /\ 0 < W M /\ (0 < n M /\ n M <= 1) /\ 0 <= u M /\ 0 < DL M
  /\ 0 <= lambda_decay M.

(** ** The value at one sample

    What the body of [calculate_concentration] computes at one position and
    one positive time, operation by operation. *)

Definition exponent_at (M : Model) (x t : R) : R :=
  - lambda_decay M * t + - ((x - u M * t) ^ 2) / (4 * DL M * t).

Definition coeff_at (M : Model) (t : R) : R :=
  m M / (2 * n M * W M * sqrt (PI * DL M * t)).

Definition unfloored_at (M : Model) (x t : R) : R :=
  coeff_at M t * exp (clip (exponent_at M x t) (-700) 700).

Definition concentration_at (M : Model) (x t : R) : R :=
  Rmax (unfloored_at M x t) 0.

(** The parameters of [main] and of both front ends' defaults. *)
Definition default_model : Model := mkModel 100 2 (3 / 10) (1 / 10) (1 / 2) 0.

(** ** Properties used in the statements *)

(** *** Sessions of the calculator *)

(** The calculators a session can be in: only [input_parameters] assigns
    the model and the dictionary. *)
Inductive reachable (float : string -> option R) : GroundwaterCalculator -> Prop :=
| reach_new : reachable float new_calculator
| reach_input (self : GroundwaterCalculator)
      (r_m r_W r_n r_u r_DL r_lambda r_standard r_detection : string) :
    reachable float self ->
    reachable float
      (fst (input_parameters float self
              r_m r_W r_n r_u r_DL r_lambda r_standard r_detection)).

(** The model and the dictionary agree. *)
Definition in_step (self : GroundwaterCalculator) : Prop :=
  match model self with
  | None => current_params self = []
  | Some M =>
      valid_parameters M
      /\ exists standard_limit detection_limit,
           current_params self
           = [("m", m M); ("W", W M); ("n", n M); ("u", u M); ("DL", DL M);
              ("lambda_decay", lambda_decay M);
              ("standard_limit", standard_limit);
              ("detection_limit", detection_limit)]%string
  end.

(** *** Construction *)

Inductive parameter : Type :=
| Mass | Area | Porosity | Velocity | Dispersion | Decay.

(** The parameter is outside its domain. *)
Definition violates (p : parameter) (M : Model) : Prop :=
  match p with
  | Mass => m M <= 0
  | Area => W M <= 0
  | Porosity => ~ (0 < n M /\ n M <= 1)
  | Velocity => u M < 0
  | Dispersion => DL M <= 0
  | Decay => lambda_decay M < 0
  end.

(** The text [_validate_parameters] raises for each parameter: contaminant
    mass, cross-section area, effective porosity, groundwater velocity,
    longitudinal dispersion coefficient, reaction coefficient. *)
Definition message (p : parameter) : string :=
  match p with
  | Mass => "污染物质量必须大于0"
  | Area => "横截面积必须大于0"
  | Porosity => "有效孔隙度必须在0-1之间"
  | Velocity => "地下水流速不能为负"
  | Dispersion => "纵向弥散系数必须大于0"
  | Decay => "反应系数不能为负"
  end.

(** *** Decay *)

(** The same parameters with another decay rate (a fresh model, as the
    sensitivity sweeps build it). *)
Definition with_decay (M : Model) (l : R) : Model :=
  mkModel (m M) (W M) (n M) (u M) (DL M) l.

(** At [x] and [t] the evaluation of [M2] is strictly below that of [M1]. *)
Definition strictly_below (M2 M1 : Model) (x t : R) : Prop :=
  exists c1 c2,
    calculate_concentration M1 (Scalar x) (Scalar t) = Ok (Scalar c1)
    /\ calculate_concentration M2 (Scalar x) (Scalar t) = Ok (Scalar c2)
    /\ c2 < c1.

(** *** Elementwise evaluation *)

(** Elementwise evaluation for one position over a sequence of times: a
    result of the sequence's shape whose entry at each time is the formula's value when
    that time is positive and 0 otherwise. *)
Definition elementwise_over_times (M : Model) (x : R) (ts : list R) : Prop :=
  exists cs,
    calculate_concentration M (Scalar x) (Array ts) = Ok (Array cs)
    /\ length cs = length ts
    /\ forall i t, nth_error ts i = Some t ->
         nth_error cs i
         = Some (if Rlt_dec 0 t then spec_concentration M x t else 0).

(** The same for a sequence of positions and one time. *)
Definition elementwise_over_positions (M : Model) (xs : list R) (t : R) : Prop :=
  exists cs,
    calculate_concentration M (Array xs) (Scalar t) = Ok (Array cs)
    /\ length cs = length xs
    /\ forall i x, nth_error xs i = Some x ->
         nth_error cs i
         = Some (if Rlt_dec 0 t then spec_concentration M x t else 0).

(** *** Crossings of a limit *)

(** The concentration at index [i] exists and is strictly above the limit. *)
Definition exceeds (cs : list R) (limit : R) (i : nat) : Prop :=
  exists c, nth_error cs i = Some c /\ c > limit.

Definition first_exceeding (cs : list R) (limit : R) (i : nat) : Prop :=
  exceeds cs limit i /\ forall j, (j < i)%nat -> ~ exceeds cs limit j.

Definition last_exceeding (cs : list R) (limit : R) (i : nat) : Prop :=
  exceeds cs limit i /\ forall j, (i < j)%nat -> ~ exceeds cs limit j.

(** What a report of the first crossing of [limit] should be: the time at
    the first index above the limit, or the text when no index is above. *)
Definition crossing_reported (t_range cs : list R) (limit : R) (text : string)
    (shown : cell) : Prop :=
  (exists i t, first_exceeding cs limit i /\ nth_error t_range i = Some t
               /\ shown = Num t)
  \/ ((forall i, ~ exceeds cs limit i) /\ shown = Str text).

(** *** The order of the checks *)

(** The position of a parameter's test in [_validate_parameters]. *)
Definition check_order (p : parameter) : nat :=
  match p with
  | Mass => 0 | Area => 1 | Porosity => 2
  | Velocity => 3 | Dispersion => 4 | Decay => 5
  end.

(** *** Sweeps *)

(** One curve of a sweep: the test value, the fresh model it builds and
    the profile of that model over the sweep's grid. *)
Definition sweep_curve (build : R -> result Model) (t value : R)
    (curve : R * ndarray) : Prop :=
  fst curve = value
  /\ exists M', build value = Ok M'
                /\ calculate_concentration M' x_range_sens (Scalar t) = Ok (snd curve)
                /\ same_shape (snd curve) x_range_sens.

(** * Proofs *)

(** ** Comparisons *)

Lemma Rleb_true (a b : R) : Rleb a b = true <-> a <= b.
Proof. unfold Rleb; destruct (Rle_dec a b); split; intros; auto; discriminate. Qed.

Lemma Rleb_false (a b : R) : Rleb a b = false <-> b < a.
Proof.
  unfold Rleb; destruct (Rle_dec a b); split; intros; auto; try discriminate; lra.
Qed.

Lemma Rltb_true (a b : R) : Rltb a b = true <-> a < b.
Proof. unfold Rltb; destruct (Rlt_dec a b); split; intros; auto; discriminate. Qed.

Lemma Rltb_false (a b : R) : Rltb a b = false <-> b <= a.
Proof.
  unfold Rltb; destruct (Rlt_dec a b); split; intros; auto; try discriminate; lra.
Qed.

Lemma Rgtb_true (a b : R) : Rgtb a b = true <-> a > b.
Proof. unfold Rgtb; destruct (Rgt_dec a b); split; intros; auto; discriminate. Qed.

Lemma Rgtb_false (a b : R) : Rgtb a b = false <-> a <= b.
Proof.
  unfold Rgtb; destruct (Rgt_dec a b); split; intros; auto; try discriminate; lra.
Qed.

(** ** Evaluation at one sample *)

Lemma default_model_valid : valid_parameters default_model.
Proof. unfold valid_parameters, default_model; simpl; lra. Qed.

(** *** Broadcasting lemmas *)

Lemma zip_with_map (f : R -> R -> R) (g h : R -> R) (l : list R) :
  zip_with f (map g l) (map h l) = map (fun v => f (g v) (h v)) l.
Proof. induction l as [|a l IH]; simpl; [reflexivity | now rewrite IH]. Qed.

Lemma nd_map2_same (f : R -> R -> R) (g h : R -> R) (l : list R) :
  nd_map2 f (Array (map g l)) (Array (map h l))
  = Ok (Array (map (fun v => f (g v) (h v)) l)).
Proof.
  simpl. rewrite !length_map, Nat.eqb_refl. now rewrite zip_with_map.
Qed.

Lemma any_le_0_scalar (t : R) : any_le_0 (Scalar t) = Rleb t 0.
Proof. unfold any_le_0; simpl. apply orb_false_r. Qed.

Lemma any_le_0_array_false (ts : list R) :
  any_le_0 (Array ts) = false <-> Forall (fun t => 0 < t) ts.
Proof.
  unfold any_le_0; simpl. induction ts as [|t ts IH]; simpl.
  - split; [constructor | reflexivity].
  - rewrite orb_false_iff, IH, Rleb_false. split.
    + intros [? ?]; constructor; assumption.
    + intros H; inversion H; subst; split; assumption.
Qed.

(** *** One time, any positions *)

Lemma calculate_concentration_le_0 (M : Model) (x : ndarray) (t : R) :
  t <= 0 -> calculate_concentration M x (Scalar t) = Ok (zeros_like x).
Proof.
  intros Ht. unfold calculate_concentration.
  rewrite any_le_0_scalar. apply Rleb_true in Ht. now rewrite Ht.
Qed.

Lemma calculate_concentration_positions (M : Model) (x : ndarray) (t : R) :
  0 < t ->
  calculate_concentration M x (Scalar t)
  = Ok (nd_map (fun xi => concentration_at M xi t) x).
Proof.
  intros Ht. unfold calculate_concentration.
  rewrite any_le_0_scalar. apply Rleb_false in Ht. rewrite Ht.
  destruct x as [x|xs]; simpl.
  - reflexivity.
  - rewrite !map_map. reflexivity.
Qed.

(** *** One position, a sequence of positive times *)

Lemma calculate_concentration_times (M : Model) (x : R) (ts : list R) :
  Forall (fun t => 0 < t) ts ->
  calculate_concentration M (Scalar x) (Array ts)
  = Ok (Array (map (fun t => concentration_at M x t) ts)).
Proof.
  intros Hts. unfold calculate_concentration.
  apply any_le_0_array_false in Hts. rewrite Hts.
  cbn [nd_map]. rewrite !map_map.
  replace (nd_map2 Rminus (Scalar x) (Array (map (fun v => u M * v) ts)))
    with (Ok (Array (map (fun v => x - u M * v) ts)))
    by (simpl; now rewrite map_map).
  cbn [bind nd_map]. rewrite !map_map.
  rewrite (nd_map2_same Rdiv). cbn [bind].
  rewrite (nd_map2_same Rplus). cbn [bind nd_map]. rewrite !map_map.
  rewrite (nd_map2_same Rmult). cbn [bind nd_map]. rewrite !map_map.
  reflexivity.
Qed.

(** *** Sign of the coefficient and of the value *)

Lemma coeff_at_pos (M : Model) (t : R) :
  valid_parameters M -> 0 < t -> 0 < coeff_at M t.
Proof.
  intros (Hm & HW & [Hn _] & _ & HDL & _) Ht. unfold coeff_at.
  assert (Hs : 0 < sqrt (PI * DL M * t)).
  { apply sqrt_lt_R0. pose proof PI_RGT_0.
    apply Rmult_lt_0_compat; [apply Rmult_lt_0_compat|]; assumption. }
  apply Rdiv_lt_0_compat; [assumption|].
  repeat apply Rmult_lt_0_compat; try assumption; lra.
Qed.

Lemma unfloored_at_pos (M : Model) (x t : R) :
  valid_parameters M -> 0 < t -> 0 < unfloored_at M x t.
Proof.
  intros HM Ht. unfold unfloored_at.
  apply Rmult_lt_0_compat; [now apply coeff_at_pos | apply exp_pos].
Qed.

Lemma concentration_at_unfloored (M : Model) (x t : R) :
  valid_parameters M -> 0 < t -> concentration_at M x t = unfloored_at M x t.
Proof.
  intros HM Ht. unfold concentration_at.
  apply Rmax_left. left. now apply unfloored_at_pos.
Qed.

(** *** The code's expression and the specification's *)

Lemma clip_clamp (e lo hi : R) : lo <= hi -> clip e lo hi = clamp lo hi e.
Proof.
  intros Hlohi. unfold clip, clamp, Rmin, Rmax.
  destruct (Rlt_dec e lo), (Rlt_dec hi e), (Rle_dec e lo);
    try destruct (Rle_dec lo hi); try destruct (Rle_dec e hi); lra.
Qed.

Lemma exponent_at_spec (M : Model) (x t : R) :
  exponent_at M x t = spec_exponent M x t.
Proof.
  unfold exponent_at, spec_exponent.
  replace (4 * DL M * t) with (4 * (DL M * t)) by ring.
  unfold Rdiv. ring.
Qed.

Lemma coeff_at_spec (M : Model) (t : R) : coeff_at M t = spec_coefficient M t.
Proof.
  unfold coeff_at, spec_coefficient.
  replace (2 * n M * W M * sqrt (PI * DL M * t))
    with (2 * (n M * (W M * sqrt (PI * (DL M * t))))).
  - reflexivity.
  - replace (PI * DL M * t) with (PI * (DL M * t)) by ring. ring.
Qed.

Lemma concentration_at_spec (M : Model) (x t : R) :
  concentration_at M x t = spec_concentration M x t.
Proof.
  unfold concentration_at, unfloored_at, spec_concentration.
  rewrite clip_clamp by lra.
  rewrite exponent_at_spec, coeff_at_spec.
  cbv zeta. unfold Rmax.
  destruct (Rle_dec _ 0), (Rlt_dec _ 0); lra.
Qed.

(** ** Construction *)

Lemma valid_no_violation (M : Model) :
  valid_parameters M <-> forall p, ~ violates p M.
Proof.
  unfold valid_parameters. split.
  - intros (Hm & HW & Hn & Hu & HDL & Hl) p. destruct p; simpl; lra.
  - intros H.
    pose proof (H Mass) as Hm. pose proof (H Area) as HW.
    pose proof (H Porosity) as Hn. pose proof (H Velocity) as Hu.
    pose proof (H Dispersion) as HDL. pose proof (H Decay) as Hl.
    simpl in *. repeat split; lra.
Qed.

Lemma validate_cases (M : Model) :
  (_validate_parameters M = Ok tt /\ valid_parameters M)
  \/ (exists p, violates p M /\ _validate_parameters M = Raise (ValueError (message p))).
Proof.
  unfold _validate_parameters, valid_parameters.
  destruct (Rleb (m M) 0) eqn:Em.
  { right; exists Mass; split; [now apply Rleb_true | reflexivity]. }
  destruct (Rleb (W M) 0) eqn:EW.
  { right; exists Area; split; [now apply Rleb_true | reflexivity]. }
  destruct (Rltb 0 (n M)) eqn:En1; simpl.
  2:{ right; exists Porosity; split; [|reflexivity].
      apply Rltb_false in En1. simpl; lra. }
  destruct (Rleb (n M) 1) eqn:En2; simpl.
  2:{ right; exists Porosity; split; [|reflexivity].
      apply Rleb_false in En2. simpl; lra. }
  destruct (Rltb (u M) 0) eqn:Eu.
  { right; exists Velocity; split; [now apply Rltb_true | reflexivity]. }
  destruct (Rleb (DL M) 0) eqn:ED.
  { right; exists Dispersion; split; [now apply Rleb_true | reflexivity]. }
  destruct (Rltb (lambda_decay M) 0) eqn:El.
  { right; exists Decay; split; [now apply Rltb_true | reflexivity]. }
  left. split; [reflexivity|].
  apply Rleb_false in Em, EW, ED. apply Rltb_true in En1. apply Rleb_true in En2.
  apply Rltb_false in Eu, El. lra.
Qed.

(** C3.  Construction raises a [ValueError] exactly when some parameter is
    outside its domain (mass <= 0, area <= 0, porosity outside (0, 1],
    velocity < 0, dispersion coefficient <= 0, decay rate < 0), and the
    message raised is the one of a violated parameter; when no parameter is
    violated, construction returns the model holding the six arguments
    unchanged.  Nothing validates afterwards: evaluation at a position and a
    time returns a value for every parameter record, valid or not.  (The
    operations take the model and return concentrations only, so none can
    change a stored parameter.) *)
Theorem init_validates (m0 W0 n0 u0 DL0 l0 : R) :
  let M := mkModel m0 W0 n0 u0 DL0 l0 in
  ((exists e, init m0 W0 n0 u0 DL0 l0 = Raise e) <-> exists p, violates p M)
  /\ (forall e, init m0 W0 n0 u0 DL0 l0 = Raise e ->
        exists p, violates p M /\ e = ValueError (message p))
  /\ ((forall p, ~ violates p M) -> init m0 W0 n0 u0 DL0 l0 = Ok M)
  /\ (forall M', init m0 W0 n0 u0 DL0 l0 = Ok M' -> M' = M /\ valid_parameters M')
  /\ (forall x t, exists c, calculate_concentration M (Scalar x) (Scalar t) = Ok (Scalar c)).
Proof.
  intros M. unfold init. fold M.
  assert (Heval : forall x t, exists c,
             calculate_concentration M (Scalar x) (Scalar t) = Ok (Scalar c)).
  { intros x t. destruct (Rle_dec t 0) as [Ht|Ht].
    - rewrite calculate_concentration_le_0 by exact Ht. simpl. eauto.
    - rewrite calculate_concentration_positions by lra. simpl. eauto. }
  destruct (validate_cases M) as [[HOk Hv] | (p & Hp & HR)].
  - rewrite HOk. cbn [bind].
    split; [|split; [|split; [|split]]].
    + split.
      * intros [e He]; discriminate.
      * intros [p Hp]. exfalso. exact (proj1 (valid_no_violation M) Hv p Hp).
    + intros e He; discriminate.
    + reflexivity.
    + intros M' HM'. injection HM' as <-. split; [reflexivity | exact Hv].
    + exact Heval.
  - rewrite HR. cbn [bind].
    split; [|split; [|split; [|split]]].
    + split; intros _; eauto.
    + intros e He. exists p. split; [exact Hp | congruence].
    + intros Hn. exfalso. exact (Hn p Hp).
    + intros M' HM'. discriminate.
    + exact Heval.
Qed.

(** ** Evaluation *)

(** C1.  For valid parameters, a position [x] and a time [t > 0], the
    evaluation returns the reference expression: the coefficient
    mass / (2 porosity area sqrt(pi dispersion t)) times exp of the exponent
    -decay t - (x - velocity t)^2 / (4 dispersion t) clamped to [-700, 700],
    floored at 0. *)
Theorem calculate_concentration_reference (M : Model) (x t : R) :
  valid_parameters M -> 0 < t ->
  calculate_concentration M (Scalar x) (Scalar t)
  = Ok (Scalar (spec_concentration M x t)).
Proof.
  intros _ Ht. rewrite calculate_concentration_positions by exact Ht.
  simpl. now rewrite concentration_at_spec.
Qed.

Lemma calculate_concentration_reference_witness :
  valid_parameters default_model /\ 0 < 100 /\
  calculate_concentration default_model (Scalar 10) (Scalar 100)
  = Ok (Scalar (spec_concentration default_model 10 100)).
Proof.
  split; [exact default_model_valid|]. split; [lra|].
  apply (calculate_concentration_reference default_model 10 100).
  - exact default_model_valid.
  - lra.
Defined.

(** C2.  For valid parameters and any position sample, scalar or sequence,
    a time [t <= 0] makes the evaluation return, without an error, a result
    of the sample's shape that is 0 at every position. *)
Theorem calculate_concentration_before_release (M : Model) (x : ndarray) (t : R) :
  valid_parameters M -> t <= 0 ->
  exists r, calculate_concentration M x (Scalar t) = Ok r
            /\ same_shape r x /\ Forall (fun c => c = 0) (entries r).
Proof.
  intros _ Ht. exists (zeros_like x). split; [|split].
  - now apply calculate_concentration_le_0.
  - destruct x; simpl; [exact I | apply length_map].
  - destruct x as [v|vs]; simpl.
    + repeat constructor.
    + apply Forall_forall. intros c Hc. apply in_map_iff in Hc.
      destruct Hc as (? & Hc & _). now symmetry.
Qed.

Lemma calculate_concentration_before_release_witness :
  valid_parameters default_model /\ -1 <= 0 /\
  exists r, calculate_concentration default_model (Array [-50; 0; 100]) (Scalar (-1)) = Ok r
            /\ same_shape r (Array [-50; 0; 100]) /\ Forall (fun c => c = 0) (entries r).
Proof.
  split; [exact default_model_valid|]. split; [lra|].
  apply (calculate_concentration_before_release default_model (Array [-50; 0; 100]) (-1)).
  - exact default_model_valid.
  - lra.
Defined.






(** ** Decay *)

Lemma exponent_at_nonpos (M : Model) (x t : R) :
  valid_parameters M -> 0 < t -> exponent_at M x t <= 0.
Proof.
  intros (_ & _ & _ & _ & HDL & Hl) Ht. unfold exponent_at.
  assert (H1 : 0 <= lambda_decay M * t) by (apply Rmult_le_pos; lra).
  assert (H2 : 0 <= (x - u M * t) ^ 2 / (4 * DL M * t)).
  { apply Rle_mult_inv_pos; [apply pow2_ge_0|].
    apply Rmult_lt_0_compat; [lra | exact Ht]. }
  unfold Rdiv in *. lra.
Qed.

Lemma exponent_at_with_decay (M : Model) (l x t : R) :
  exponent_at (with_decay M l) x t
  = exponent_at M x t - (l - lambda_decay M) * t.
Proof. unfold exponent_at, with_decay, Rdiv; simpl. ring. Qed.

Lemma clip_low (e : R) : e <= -700 -> clip e (-700) 700 = -700.
Proof.
  intros He. unfold clip, Rmin, Rmax.
  destruct (Rle_dec e (-700)); [|lra].
  destruct (Rle_dec (-700) 700); lra.
Qed.

Lemma clip_inside (e : R) : -700 <= e <= 700 -> clip e (-700) 700 = e.
Proof.
  intros He. unfold clip, Rmin, Rmax.
  destruct (Rle_dec e (-700)); destruct (Rle_dec _ 700); lra.
Qed.

(** The defaults, 100 m downstream after one day, for any decay rate: the
    exponent is below the clamp's lower bound. *)
Lemma far_exponent_clamped (l : R) :
  0 <= l -> clip (exponent_at (with_decay default_model l) 100 1) (-700) 700 = -700.
Proof.
  intros Hl. apply clip_low.
  unfold exponent_at, with_decay, default_model; simpl. lra.
Qed.

(** Strict decrease fails where the clamp is active: 100 m
    from the release after one day both exponents are below -700, and the
    models with decay rates 0 and 1/10 return the same value. *)
Lemma decay_not_strict_far_from_plume :
  valid_parameters default_model
  /\ valid_parameters (with_decay default_model (1 / 10))
  /\ lambda_decay default_model < lambda_decay (with_decay default_model (1 / 10))
  /\ 0 < 1
  /\ ~ strictly_below (with_decay default_model (1 / 10)) default_model 100 1.
Proof.
  split; [exact default_model_valid|].
  split; [unfold valid_parameters, with_decay, default_model; simpl; lra|].
  split; [simpl; lra|]. split; [lra|].
  intros (c1 & c2 & H1 & H2 & Hlt).
  rewrite calculate_concentration_positions in H1, H2 by lra.
  simpl in H1, H2. injection H1 as <-. injection H2 as <-.
  unfold concentration_at, unfloored_at in Hlt.
  rewrite (far_exponent_clamped (1 / 10)) in Hlt by lra.
  replace default_model with (with_decay default_model 0) in Hlt at 3 by reflexivity.
  rewrite (far_exponent_clamped 0) in Hlt by lra.
  unfold coeff_at, with_decay in Hlt; simpl in Hlt. lra.
Qed.

(** C7, amended.  For two valid parameter sets that differ only in the
    decay rate, a position [x] and a time [t > 0], the model with the
    strictly larger decay rate returns a value that is never larger, and
    that is strictly smaller exactly when the exponent of the model with the
    smaller decay rate is above the clamp's lower bound -700. *)
Theorem decay_decreases_above_clamp (M : Model) (l2 x t : R) :
  valid_parameters M -> valid_parameters (with_decay M l2) ->
  lambda_decay M < l2 -> 0 < t ->
  exists c1 c2,
    calculate_concentration M (Scalar x) (Scalar t) = Ok (Scalar c1)
    /\ calculate_concentration (with_decay M l2) (Scalar x) (Scalar t) = Ok (Scalar c2)
    /\ c2 <= c1
    /\ (c2 < c1 <-> -700 < exponent_at M x t).
Proof.
  intros HM HM2 Hl Ht.
  exists (concentration_at M x t), (concentration_at (with_decay M l2) x t).
  rewrite !calculate_concentration_positions by exact Ht. simpl.
  split; [reflexivity|]. split; [reflexivity|].
  rewrite !concentration_at_unfloored by assumption.
  unfold unfloored_at.
  assert (Hc : coeff_at (with_decay M l2) t = coeff_at M t) by reflexivity.
  rewrite Hc. pose proof (coeff_at_pos M t HM Ht) as Hcp.
  pose proof (exponent_at_nonpos M x t HM Ht) as He1.
  pose proof (exponent_at_with_decay M l2 x t) as He2.
  assert (Hd : 0 < (l2 - lambda_decay M) * t) by (apply Rmult_lt_0_compat; lra).
  set (e1 := exponent_at M x t) in *.
  set (e2 := exponent_at (with_decay M l2) x t) in *.
  destruct (Rle_dec e1 (-700)) as [Hlow|Hin].
  - rewrite (clip_low e1), (clip_low e2) by lra. split; [lra|].
    split; intros; lra.
  - rewrite (clip_inside e1) by lra.
    assert (Hlt : exp (clip e2 (-700) 700) < exp e1).
    { apply exp_increasing.
      destruct (Rle_dec e2 (-700)).
      - rewrite clip_low by assumption. lra.
      - rewrite clip_inside by lra. lra. }
    assert (Hm : coeff_at M t * exp (clip e2 (-700) 700) < coeff_at M t * exp e1)
      by (apply Rmult_lt_compat_l; assumption).
    split; [lra|]. split; intros; lra.
Qed.

Lemma decay_decreases_above_clamp_witness :
  valid_parameters default_model
  /\ valid_parameters (with_decay default_model (1 / 10))
  /\ lambda_decay default_model < 1 / 10 /\ 0 < 100 /\
  exists c1 c2,
    calculate_concentration default_model (Scalar 10) (Scalar 100) = Ok (Scalar c1)
    /\ calculate_concentration (with_decay default_model (1 / 10)) (Scalar 10) (Scalar 100)
       = Ok (Scalar c2)
    /\ c2 <= c1
    /\ (c2 < c1 <-> -700 < exponent_at default_model 10 100).
Proof.
  assert (Hv : valid_parameters (with_decay default_model (1 / 10)))
    by (unfold valid_parameters, with_decay, default_model; simpl; lra).
  split; [exact default_model_valid|]. split; [exact Hv|].
  split; [simpl; lra|]. split; [lra|].
  apply (decay_decreases_above_clamp default_model (1 / 10) 10 100).
  - exact default_model_valid.
  - exact Hv.
  - simpl; lra.
  - lra.
Defined.

(** ** Elementwise evaluation *)

(** A time sequence that holds a time [<= 0] makes the evaluation return
    one 0 in the shape of the position, not an array over the times. *)
Lemma not_elementwise_from_time_zero :
  ~ elementwise_over_times default_model 10 [0; 1].
Proof.
  intros (cs & H & _). unfold calculate_concentration in H.
  assert (Hany : any_le_0 (Array [0; 1]) = true).
  { unfold any_le_0; simpl. replace (Rleb 0 0) with true; [reflexivity|].
    symmetry. apply Rleb_true. lra. }
  rewrite Hany in H. simpl in H. discriminate.
Qed.

(** C4, amended.  For a sequence of positions and one time the result has
    the positions' shape, each entry being the formula's value at its own
    position when [t > 0] and 0 when [t <= 0]; for one position and a
    sequence of times that are all positive the result has the times' shape,
    each entry being the formula's value at its own time. *)
Theorem calculate_concentration_elementwise (M : Model) :
  (forall xs t, elementwise_over_positions M xs t)
  /\ (forall x ts, Forall (fun t => 0 < t) ts -> elementwise_over_times M x ts).
Proof.
  split.
  - intros xs t. destruct (Rlt_dec 0 t) as [Ht|Ht].
    + exists (map (fun xi => concentration_at M xi t) xs).
      rewrite calculate_concentration_positions by exact Ht.
      split; [reflexivity|]. split; [apply length_map|].
      intros i x Hx. destruct (Rlt_dec 0 t); [|contradiction].
      rewrite <- (concentration_at_spec M x t).
      now apply (map_nth_error (fun xi => concentration_at M xi t)).
    + exists (map (fun _ => 0) xs).
      rewrite calculate_concentration_le_0 by lra.
      split; [reflexivity|]. split; [apply length_map|].
      intros i x Hx. destruct (Rlt_dec 0 t); [contradiction|].
      exact (map_nth_error (fun _ => 0) i xs Hx).
  - intros x ts Hts.
    exists (map (fun t => concentration_at M x t) ts).
    rewrite calculate_concentration_times by exact Hts.
    split; [reflexivity|]. split; [apply length_map|].
    intros i t Hi.
    assert (Ht : 0 < t).
    { rewrite Forall_forall in Hts. apply Hts. eapply nth_error_In; eassumption. }
    destruct (Rlt_dec 0 t); [|contradiction].
    rewrite <- (concentration_at_spec M x t).
    now apply (map_nth_error (fun t => concentration_at M x t)).
Qed.

Lemma calculate_concentration_elementwise_witness :
  Forall (fun t => 0 < t) [1; 2; 3]
  /\ elementwise_over_times default_model 10 [1; 2; 3].
Proof.
  assert (H : Forall (fun t => 0 < t) [1; 2; 3])
    by (repeat constructor; lra).
  split; [exact H|].
  exact (proj2 (calculate_concentration_elementwise default_model) 10 [1; 2; 3] H).
Defined.

(** ** Scans: the indices above a limit *)

Open Scope nat_scope.

Lemma where_from_In (mask : list bool) :
  forall k i, In i (where_from k mask)
              <-> k <= i /\ nth_error mask (i - k) = Some true.
Proof.
  induction mask as [|b mask IH]; intros k i; simpl.
  - split; [contradiction|]. intros [_ H]. destruct (i - k); discriminate.
  - assert (Hrec : In i (where_from (S k) mask)
                   <-> k <= i /\ i <> k /\ nth_error mask (i - S k) = Some true).
    { rewrite IH. split; intros H; repeat split; try lia; apply H. }
    destruct b; simpl; rewrite Hrec.
    + split.
      * intros [<- | (Hk & Hne & Hn)].
        -- split; [lia|]. now rewrite Nat.sub_diag.
        -- split; [lia|]. replace (i - k) with (S (i - S k)) by lia. exact Hn.
      * intros [Hk Hn]. destruct (Nat.eq_dec k i) as [->|Hne]; [now left|].
        right. repeat split; try lia; auto.
        replace (i - k) with (S (i - S k)) in Hn by lia. exact Hn.
    + split.
      * intros (Hk & Hne & Hn). split; [lia|].
        replace (i - k) with (S (i - S k)) by lia. exact Hn.
      * intros [Hk Hn]. destruct (Nat.eq_dec k i) as [->|Hne].
        -- rewrite Nat.sub_diag in Hn. discriminate.
        -- repeat split; try lia; auto.
           replace (i - k) with (S (i - S k)) in Hn by lia. exact Hn.
Qed.

(** The first index returned is the least one. *)
Lemma where_from_head_least (mask : list bool) :
  forall k i rest, where_from k mask = i :: rest ->
                   forall j, In j (where_from k mask) -> i <= j.
Proof.
  induction mask as [|b mask IH]; intros k i rest H j Hj; simpl in *.
  - discriminate.
  - destruct b.
    + injection H as <- _. destruct Hj as [Hj | Hj]; [lia|].
      apply where_from_In in Hj. lia.
    + eapply IH; eassumption.
Qed.

Lemma where_from_sorted (mask : list bool) :
  forall k, StronglySorted lt (where_from k mask).
Proof.
  induction mask as [|b mask IH]; intros k; simpl; [constructor|].
  destruct b; [|apply IH].
  constructor; [apply IH|].
  apply Forall_forall. intros j Hj. apply where_from_In in Hj. lia.
Qed.

Lemma last_nonempty_In (l : list nat) (d : nat) : l <> [] -> In (last l d) l.
Proof.
  induction l as [|a l IH]; intros Hne; [contradiction|].
  destruct l as [|b l']; [now left|].
  right. apply IH. discriminate.
Qed.

Lemma sorted_last_greatest (l : list nat) (d : nat) :
  StronglySorted lt l -> forall j, In j l -> j <= last l d.
Proof.
  induction l as [|a l IH]; intros Hs j Hj; [contradiction|].
  inversion Hs as [|? ? Hl Ha]; subst.
  destruct l as [|b l'].
  - destruct Hj as [<- | []]. reflexivity.
  - change (last (a :: b :: l') d) with (last (b :: l') d).
    destruct Hj as [<- | Hj].
    + assert (a < b) by (inversion Ha; assumption).
      assert (b <= last (b :: l') d) by (apply IH; [assumption | now left]).
      lia.
    + now apply IH.
Qed.

Open Scope R_scope.

Lemma gt_mask_true (cs : list R) (limit : R) (i : nat) :
  nth_error (gt_mask cs limit) i = Some true <-> exceeds cs limit i.
Proof.
  unfold gt_mask, exceeds. rewrite nth_error_map.
  destruct (nth_error cs i) as [c|]; simpl.
  - split.
    + intros H. injection H as H. apply Rgtb_true in H. eauto.
    + intros (c' & Hc & Hgt). injection Hc as <-.
      f_equal. now apply Rgtb_true.
  - split; [discriminate|]. intros (c' & Hc & _). discriminate.
Qed.

Lemma np_where_In (cs : list R) (limit : R) (i : nat) :
  In i (np_where (gt_mask cs limit)) <-> exceeds cs limit i.
Proof.
  unfold np_where. rewrite where_from_In, Nat.sub_0_r, gt_mask_true.
  split; [intros [_ H]; exact H | intros H; split; [lia | exact H]].
Qed.

Lemma np_where_nil (cs : list R) (limit : R) :
  np_where (gt_mask cs limit) = [] <-> forall i, ~ exceeds cs limit i.
Proof.
  split.
  - intros H i Hi. apply np_where_In in Hi. rewrite H in Hi. contradiction.
  - intros H. destruct (np_where (gt_mask cs limit)) as [|i rest] eqn:E; [reflexivity|].
    exfalso. apply (H i). apply np_where_In. rewrite E. now left.
Qed.

Lemma np_where_first (cs : list R) (limit : R) (i : nat) (rest : list nat) :
  np_where (gt_mask cs limit) = i :: rest -> first_exceeding cs limit i.
Proof.
  intros E. split.
  - apply np_where_In. rewrite E. now left.
  - intros j Hj Hex. apply np_where_In in Hex.
    pose proof (where_from_head_least _ _ _ _ E j Hex). lia.
Qed.

Lemma np_where_last (cs : list R) (limit : R) (i : nat) (rest : list nat) :
  np_where (gt_mask cs limit) = i :: rest ->
  last_exceeding cs limit (last (i :: rest) i).
Proof.
  intros E. split.
  - apply np_where_In. rewrite E. apply last_nonempty_In. discriminate.
  - intros j Hj Hex. apply np_where_In in Hex. rewrite E in Hex.
    assert (Hs : StronglySorted lt (i :: rest))
      by (rewrite <- E; apply where_from_sorted).
    pose proof (sorted_last_greatest _ i Hs j Hex). lia.
Qed.

(** *** Maximum *)

Lemma fold_left_Rmax_ge (l : list R) :
  forall a, a <= fold_left Rmax l a
            /\ forall c, In c l -> c <= fold_left Rmax l a.
Proof.
  induction l as [|b l IH]; intros a; simpl.
  - split; [lra | contradiction].
  - destruct (IH (Rmax a b)) as [H1 H2].
    pose proof (Rmax_l a b). pose proof (Rmax_r a b).
    split; [lra|]. intros c [<- | Hc]; [lra | now apply H2].
Qed.

Lemma fold_left_Rmax_In (l : list R) :
  forall a, fold_left Rmax l a = a \/ In (fold_left Rmax l a) l.
Proof.
  induction l as [|b l IH]; intros a; simpl; [now left|].
  destruct (IH (Rmax a b)) as [H | H]; [|now right; right].
  rewrite H. unfold Rmax. destruct (Rle_dec a b); [right; now left | now left].
Qed.

Lemma np_max_spec (cs : list R) (mx : R) :
  np_max cs = Ok mx -> In mx cs /\ forall c, In c cs -> c <= mx.
Proof.
  destruct cs as [|c0 rest]; simpl; [discriminate|].
  intros H. injection H as <-.
  destruct (fold_left_Rmax_ge rest c0) as [H1 H2]. split.
  - destruct (fold_left_Rmax_In rest c0) as [-> | H]; [now left | now right].
  - intros c [<- | Hc]; [exact H1 | now apply H2].
Qed.

(** Deciding the comparisons of a concrete sample. *)
Ltac decide_Rgtb :=
  repeat match goal with
    | |- context [Rgtb ?a ?b] =>
        first [ replace (Rgtb a b) with true by (symmetry; apply Rgtb_true; lra)
              | replace (Rgtb a b) with false by (symmetry; apply Rgtb_false; lra) ]
    end.

Lemma exceeds_in_range (cs : list R) (limit : R) (i : nat) :
  exceeds cs limit i -> (i < length cs)%nat.
Proof.
  intros (c & Hc & _). apply nth_error_Some. rewrite Hc. discriminate.
Qed.

Lemma getitem_in_range (a : list R) (i : nat) :
  (i < length a)%nat -> exists v, nth_error a i = Some v /\ getitem a i = Ok v.
Proof.
  intros Hi. unfold getitem. destruct (nth_error a i) as [v|] eqn:E.
  - eauto.
  - apply nth_error_None in E. lia.
Qed.

(** ** Exceedance range *)

(** C5.  For positions and concentrations of one length,
    [find_concentration_range] returns the positions at the first and at the
    last index whose concentration is strictly above the limit when there is
    such an index, and returns [(None, None)] exactly when there is none, in
    particular when the limit is at least the maximum of the sample. *)
Theorem find_concentration_range_spec (x cs : list R) (limit : R) :
  length x = length cs ->
  ((exists i, exceeds cs limit i) ->
     exists i0 i1 a b,
       first_exceeding cs limit i0 /\ last_exceeding cs limit i1
       /\ nth_error x i0 = Some a /\ nth_error x i1 = Some b
       /\ find_concentration_range x cs limit = Ok (Some a, Some b))
  /\ (find_concentration_range x cs limit = Ok (None, None)
      <-> forall i, ~ exceeds cs limit i)
  /\ (forall mx, np_max cs = Ok mx -> (mx <= limit)%R ->
        find_concentration_range x cs limit = Ok (None, None)).
Proof.
  intros Hlen.
  assert (Hnone : (forall i, ~ exceeds cs limit i) ->
                  find_concentration_range x cs limit = Ok (None, None)).
  { intros H. apply np_where_nil in H. unfold find_concentration_range.
    now rewrite H. }
  assert (Hsome : (exists i, exceeds cs limit i) ->
     exists i0 i1 a b,
       first_exceeding cs limit i0 /\ last_exceeding cs limit i1
       /\ nth_error x i0 = Some a /\ nth_error x i1 = Some b
       /\ find_concentration_range x cs limit = Ok (Some a, Some b)).
  { intros [i Hi]. unfold find_concentration_range.
    destruct (np_where (gt_mask cs limit)) as [|i0 rest] eqn:E.
    - exfalso. apply np_where_In in Hi. rewrite E in Hi. contradiction.
    - pose proof (np_where_first _ _ _ _ E) as Hf.
      pose proof (np_where_last _ _ _ _ E) as Hl.
      destruct (getitem_in_range x i0) as (a & Ha & Hga).
      { rewrite Hlen. apply (exceeds_in_range cs limit), Hf. }
      destruct (getitem_in_range x (last (i0 :: rest) i0)) as (b & Hb & Hgb).
      { rewrite Hlen. apply (exceeds_in_range cs limit), Hl. }
      exists i0, (last (i0 :: rest) i0), a, b.
      rewrite Hga, Hgb. cbn [bind]. auto. }
  split; [exact Hsome|]. split.
  - split; [|exact Hnone].
    intros HN i Hi.
    destruct (Hsome (ex_intro _ i Hi)) as (? & ? & ? & ? & _ & _ & _ & _ & HS).
    rewrite HS in HN. discriminate.
  - intros mx Hmx Hle. apply Hnone. intros i (c & Hc & Hgt).
    apply np_max_spec in Hmx. destruct Hmx as [_ Hmx].
    apply nth_error_In in Hc. specialize (Hmx c Hc). lra.
Qed.

Lemma find_concentration_range_spec_witness :
  length [0; 1; 2; 3] = length [0; 1; 1; 0]
  /\ find_concentration_range [0; 1; 2; 3] [0; 1; 1; 0] (1 / 2) = Ok (Some 1, Some 2).
Proof.
  split; [reflexivity|].
  destruct (find_concentration_range_spec [0; 1; 2; 3] [0; 1; 1; 0] (1 / 2)
              eq_refl) as (Hsome & _ & _).
  destruct Hsome as (i0 & i1 & a & b & Hf & Hl & Ha & Hb & Hr).
  { exists 1%nat, 1. split; [reflexivity | lra]. }
  rewrite Hr. clear Hr.
  assert (Hi0 : i0 = 1%nat).
  { destruct Hf as [(c & Hc & Hgt) Hmin].
    destruct i0 as [|[|j]]; [simpl in Hc; injection Hc as <-; lra | reflexivity |].
    exfalso. apply (Hmin 1%nat); [lia|]. exists 1. split; [reflexivity | lra]. }
  assert (Hi1 : i1 = 2%nat).
  { destruct Hl as [(c & Hc & Hgt) Hmax].
    destruct i1 as [|[|[|[|j]]]]; simpl in Hc.
    - injection Hc as <-; lra.
    - exfalso. apply (Hmax 2%nat); [lia|]. exists 1. split; [reflexivity | lra].
    - reflexivity.
    - injection Hc as <-; lra.
    - destruct j; discriminate. }
  subst. simpl in Ha, Hb. injection Ha as <-. injection Hb as <-. reflexivity.
Defined.

(** ** Breakthrough: detection and exceedance *)

(** C10.  With the detection limit at most the standard limit, when the
    scan finds a first exceedance index and its time, it also finds a first
    detection index, which is not larger, and its time. *)
Theorem detection_not_after_exceedance
    (t_range cs : list R) (std det : R) (e : nat) (rest : list nat) (te : R) :
  (det <= std)%R ->
  np_where (gt_mask cs std) = e :: rest ->
  first_time t_range (e :: rest) = Ok (Some te) ->
  exists d rest' td,
    np_where (gt_mask cs det) = d :: rest'
    /\ (d <= e)%nat
    /\ first_time t_range (d :: rest') = Ok (Some td).
Proof.
  intros Hle He Hte.
  pose proof (np_where_first _ _ _ _ He) as [(c & Hc & Hgt) _].
  assert (Hdet : exceeds cs det e) by (exists c; split; [exact Hc | lra]).
  destruct (np_where (gt_mask cs det)) as [|d rest'] eqn:Ed.
  - exfalso. apply np_where_In in Hdet. rewrite Ed in Hdet. contradiction.
  - assert (Hde : (d <= e)%nat).
    { apply (where_from_head_least _ _ _ _ Ed).
      exact (proj2 (np_where_In cs det e) Hdet). }
    assert (He_lt : (e < length t_range)%nat).
    { simpl in Hte. unfold getitem in Hte.
      destruct (nth_error t_range e) eqn:E; [|discriminate].
      apply nth_error_Some. rewrite E. discriminate. }
    destruct (getitem_in_range t_range d) as (td & _ & Hg); [lia|].
    exists d, rest', td. repeat split; try assumption.
    simpl. now rewrite Hg.
Qed.

Lemma detection_not_after_exceedance_witness :
  (1 / 20 <= 1 / 2)%R
  /\ np_where (gt_mask [0; 1 / 10; 1; 1 / 10] (1 / 2)) = [2%nat]
  /\ first_time [1; 2; 3; 4] [2%nat] = Ok (Some 3)
  /\ exists d rest' td,
       np_where (gt_mask [0; 1 / 10; 1; 1 / 10] (1 / 20)) = d :: rest'
       /\ (d <= 2)%nat
       /\ first_time [1; 2; 3; 4] (d :: rest') = Ok (Some td).
Proof.
  assert (Hw : np_where (gt_mask [0; 1 / 10; 1; 1 / 10] (1 / 2)) = [2%nat]).
  { unfold np_where, gt_mask. simpl. decide_Rgtb. reflexivity. }
  split; [lra|]. split; [exact Hw|]. split; [reflexivity|].
  apply (detection_not_after_exceedance [1; 2; 3; 4] [0; 1 / 10; 1; 1 / 10]
           (1 / 2) (1 / 20) 2 [] 3).
  - lra.
  - exact Hw.
  - reflexivity.
Defined.

(** *** Peak *)

Lemma argmax_from_spec (a : list R) :
  forall (best : R) (besti i : nat),
    let r := argmax_from best besti i a in
    let mx := fold_left Rmax a best in
    (r = besti /\ mx = best /\ forall c, In c a -> (c <= best)%R)
    \/ ((i <= r)%nat /\ nth_error a (r - i) = Some mx /\ (best < mx)%R
        /\ forall j c, (j < r - i)%nat -> nth_error a j = Some c -> (c < mx)%R).
Proof.
  induction a as [|c rest IH]; intros best besti i; simpl.
  - left. repeat split. contradiction.
  - destruct (Rgtb c best) eqn:E.
    + apply Rgtb_true in E. rewrite Rmax_right by lra.
      right. destruct (IH c i (S i)) as [(Hr & Hmx & Hall) | (Hr & Hn & Hlt & Hbefore)].
      * rewrite Hr, Hmx, Nat.sub_diag. simpl.
        repeat split; try lia; try lra.
      * split; [lia|]. replace (argmax_from c i (S i) rest - i)%nat
          with (S (argmax_from c i (S i) rest - S i)) by lia.
        simpl. split; [exact Hn|]. split; [lra|].
        intros [|j] c' Hj Hc'; simpl in Hc'.
        -- injection Hc' as <-. exact Hlt.
        -- apply (Hbefore j); [lia | exact Hc'].
    + apply Rgtb_false in E. rewrite Rmax_left by lra.
      destruct (IH best besti (S i)) as [(Hr & Hmx & Hall) | (Hr & Hn & Hlt & Hbefore)].
      * left. repeat split; try assumption.
        intros c' [<- | Hc']; [exact E | now apply Hall].
      * right. split; [lia|]. replace (argmax_from best besti (S i) rest - i)%nat
          with (S (argmax_from best besti (S i) rest - S i)) by lia.
        simpl. split; [exact Hn|]. split; [exact Hlt|].
        intros [|j] c' Hj Hc'; simpl in Hc'.
        -- injection Hc' as <-. lra.
        -- apply (Hbefore j); [lia | exact Hc'].
Qed.

(** [np.argmax] is the first index that holds [np.max]. *)
Lemma np_argmax_spec (cs : list R) :
  cs <> [] ->
  exists i mx,
    np_argmax cs = Ok i /\ np_max cs = Ok mx
    /\ nth_error cs i = Some mx
    /\ forall j c, (j < i)%nat -> nth_error cs j = Some c -> (c < mx)%R.
Proof.
  destruct cs as [|c0 rest]; [contradiction|]. intros _.
  exists (argmax_from c0 0%nat 1%nat rest), (fold_left Rmax rest c0).
  split; [reflexivity|]. split; [reflexivity|].
  destruct (argmax_from_spec rest c0 0%nat 1%nat)
    as [(Hr & Hmx & _) | (Hr & Hn & Hlt & Hbefore)].
  - rewrite Hr, Hmx. split; [reflexivity|]. intros j c Hj; lia.
  - set (r := argmax_from c0 0%nat 1%nat rest) in *.
    destruct r as [|r']; [lia|].
    simpl in Hn. rewrite Nat.sub_0_r in Hn. simpl. split; [exact Hn|].
    intros [|j] c Hj Hc; simpl in Hc.
    + injection Hc as <-. exact Hlt.
    + apply (Hbefore j); [simpl; lia | exact Hc].
Qed.

(** ** Breakthrough statistics *)

Lemma first_crossing_cases (t_range cs : list R) (limit : R) :
  length t_range = length cs ->
  (np_where (gt_mask cs limit) = [] /\ forall i, ~ exceeds cs limit i)
  \/ (exists i rest t,
        np_where (gt_mask cs limit) = i :: rest
        /\ first_exceeding cs limit i
        /\ nth_error t_range i = Some t /\ getitem t_range i = Ok t).
Proof.
  intros Hlen. destruct (np_where (gt_mask cs limit)) as [|i rest] eqn:E.
  - left. split; [reflexivity | now apply np_where_nil].
  - right. pose proof (np_where_first _ _ _ _ E) as Hf.
    destruct (getitem_in_range t_range i) as (t & Ht & Hg).
    { rewrite Hlen. apply (exceeds_in_range cs limit), Hf. }
    exists i, rest, t. auto.
Qed.

(** X17.  The command-line analysis reports each crossing as its time, or as
    the text when the limit is never crossed, and the peak with the first
    time that reaches it. *)
Lemma print_breakthrough_analysis_spec (t_range cs : list R) (std det : R) :
  length t_range = length cs -> cs <> [] ->
  exists r,
    print_breakthrough_analysis t_range cs std det = Ok r
    /\ crossing_reported t_range cs det "未检出" (detection_time r)
    /\ crossing_reported t_range cs std "未超标" (exceed_time r)
    /\ exists i,
         nth_error cs i = Some (max_conc r)
         /\ nth_error t_range i = Some (max_time r)
         /\ (forall c, In c cs -> (c <= max_conc r)%R)
         /\ forall j c, (j < i)%nat -> nth_error cs j = Some c -> (c < max_conc r)%R.
Proof.
  intros Hlen Hne. unfold print_breakthrough_analysis.
  destruct (np_argmax_spec cs Hne) as (i & mx & Harg & Hmax & Hi & Hbefore).
  destruct (getitem_in_range t_range i) as (tm & Htm & Hgm).
  { rewrite Hlen. apply nth_error_Some. rewrite Hi. discriminate. }
  rewrite Harg, Hmax.
  assert (Hpeak : exists i0,
             nth_error cs i0 = Some mx /\ nth_error t_range i0 = Some tm
             /\ (forall c, In c cs -> (c <= mx)%R)
             /\ forall j c, (j < i0)%nat -> nth_error cs j = Some c -> (c < mx)%R).
  { exists i. repeat split; try assumption. apply (np_max_spec cs mx Hmax). }
  destruct (first_crossing_cases t_range cs det Hlen)
    as [[Ed Hd] | (id & rd & td & Ed & Hfd & Htd & Hgd)];
  destruct (first_crossing_cases t_range cs std Hlen)
    as [[Es Hs] | (ie & re & te & Es & Hfs & Hts & Hgs)];
  rewrite Ed, Es; try rewrite Hgd; try rewrite Hgs; cbn [bind]; rewrite Hgm;
    cbn [bind]; eexists; (split; [reflexivity|]); simpl;
    (split; [|split; [|exact Hpeak]]).
  all: try (right; split; [assumption | reflexivity]).
  all: left; eauto.
Qed.

(** The dashboard's row is the command line's when no sampled time is 0. *)
Lemma breakthrough_results_nonzero_times (t_range cs : list R) (std det : R) :
  Forall (fun t => t <> 0%R) t_range ->
  breakthrough_results t_range cs std det
  = print_breakthrough_analysis t_range cs std det.
Proof.
  intros Hnz. unfold breakthrough_results, print_breakthrough_analysis, first_time.
  assert (Hcell : forall i text,
    (v <- (v <- getitem t_range i ;; Ok (Some v)) ;; Ok (if_truthy_else v text))
    = (v <- getitem t_range i ;; Ok (Num v))).
  { intros i text. unfold getitem.
    destruct (nth_error t_range i) as [v|] eqn:E; [|reflexivity].
    simpl. destruct (Req_dec_T v 0) as [Hz|_]; [|reflexivity].
    exfalso. rewrite Forall_forall in Hnz. apply (Hnz v); [|exact Hz].
    eapply nth_error_In; eassumption. }
  destruct (np_where (gt_mask cs det)) as [|id rd];
  destruct (np_where (gt_mask cs std)) as [|ie re]; cbn [bind if_truthy_else].
  - reflexivity.
  - specialize (Hcell ie "未超标"%string). unfold getitem in *.
    destruct (nth_error t_range ie) as [v|]; [|reflexivity].
    simpl in *. injection Hcell as ->. reflexivity.
  - specialize (Hcell id "未检出"%string). unfold getitem in *.
    destruct (nth_error t_range id) as [v|]; [|reflexivity].
    simpl in *. injection Hcell as ->. reflexivity.
  - pose proof (Hcell ie "未超标"%string) as Hs. pose proof (Hcell id "未检出"%string) as Hd.
    unfold getitem in *.
    destruct (nth_error t_range id) as [v|]; [|reflexivity].
    destruct (nth_error t_range ie) as [w|]; [|reflexivity].
    simpl in *. injection Hs as ->. injection Hd as ->. reflexivity.
Qed.


(** * Further properties of the model *)

(** ** Validation reports the first failing check *)

Lemma message_injective (p q : parameter) : message p = message q -> p = q.
Proof. destruct p, q; simpl; intros H; try reflexivity; discriminate. Qed.

(** X1.  [_validate_parameters] raises the message of a parameter exactly when
    that parameter is outside its domain and every parameter tested before
    it (mass, area, porosity, velocity, dispersion, decay, in this order) is
    inside: of several bad parameters the first is the one named. *)
Theorem validate_reports_first_violation (M : Model) (p : parameter) :
  _validate_parameters M = Raise (ValueError (message p))
  <-> violates p M
      /\ forall q, (check_order q < check_order p)%nat -> ~ violates q M.
Proof.
  assert (Hfirst : forall p0, violates p0 M ->
            (forall q, (check_order q < check_order p0)%nat -> ~ violates q M) ->
            _validate_parameters M = Raise (ValueError (message p0))).
  { intros p0 Hp Hbefore. unfold _validate_parameters.
    assert (Hm : (check_order Mass < check_order p0)%nat -> Rleb (m M) 0 = false).
    { intros H. apply Rleb_false. specialize (Hbefore Mass H). simpl in Hbefore. lra. }
    assert (HW : (check_order Area < check_order p0)%nat -> Rleb (W M) 0 = false).
    { intros H. apply Rleb_false. specialize (Hbefore Area H). simpl in Hbefore. lra. }
    assert (Hn : (check_order Porosity < check_order p0)%nat ->
                 Rltb 0 (n M) = true /\ Rleb (n M) 1 = true).
    { intros H. specialize (Hbefore Porosity H). simpl in Hbefore.
      rewrite Rltb_true, Rleb_true. lra. }
    assert (Hu : (check_order Velocity < check_order p0)%nat -> Rltb (u M) 0 = false).
    { intros H. apply Rltb_false. specialize (Hbefore Velocity H). simpl in Hbefore. lra. }
    assert (HD : (check_order Dispersion < check_order p0)%nat -> Rleb (DL M) 0 = false).
    { intros H. apply Rleb_false. specialize (Hbefore Dispersion H). simpl in Hbefore. lra. }
    destruct p0; simpl in Hp, Hm, HW, Hn, Hu, HD.
    - apply Rleb_true in Hp. now rewrite Hp.
    - rewrite Hm by lia. apply Rleb_true in Hp. now rewrite Hp.
    - rewrite Hm, HW by lia.
      destruct (Rltb 0 (n M)) eqn:E1; [|reflexivity].
      destruct (Rleb (n M) 1) eqn:E2; [|reflexivity].
      apply Rltb_true in E1. apply Rleb_true in E2. exfalso. apply Hp. lra.
    - rewrite Hm, HW by lia. destruct Hn as [-> ->]; [lia|]. simpl.
      apply Rltb_true in Hp. now rewrite Hp.
    - rewrite Hm, HW by lia. destruct Hn as [-> ->]; [lia|]. simpl.
      rewrite Hu by lia. apply Rleb_true in Hp. now rewrite Hp.
    - rewrite Hm, HW by lia. destruct Hn as [-> ->]; [lia|]. simpl.
      rewrite Hu, HD by lia. apply Rltb_true in Hp. now rewrite Hp. }
  split.
  - intros HR.
    destruct (validate_cases M) as [[HOk _] | (p' & Hp' & HR')].
    { rewrite HOk in HR. discriminate. }
    (* the least violated parameter is the one raised *)
    assert (Hleast : exists p0, violates p0 M /\
              forall q, (check_order q < check_order p0)%nat -> ~ violates q M).
    { clear HR HR' Hfirst.
      assert (Hdec : forall q, violates q M \/ ~ violates q M).
      { intros q. destruct q; simpl; lra. }
      destruct (Hdec Mass) as [H0|H0]; [exists Mass; split; [exact H0 | intros q; destruct q; simpl; lia]|].
      destruct (Hdec Area) as [H1|H1];
        [exists Area; split; [exact H1 | intros q; destruct q; simpl; intros; try lia; assumption]|].
      destruct (Hdec Porosity) as [H2|H2];
        [exists Porosity; split; [exact H2 | intros q; destruct q; simpl; intros; try lia; assumption]|].
      destruct (Hdec Velocity) as [H3|H3];
        [exists Velocity; split; [exact H3 | intros q; destruct q; simpl; intros; try lia; assumption]|].
      destruct (Hdec Dispersion) as [H4|H4];
        [exists Dispersion; split; [exact H4 | intros q; destruct q; simpl; intros; try lia; assumption]|].
      destruct (Hdec Decay) as [H5|H5];
        [exists Decay; split; [exact H5 | intros q; destruct q; simpl; intros; try lia; assumption]|].
      exfalso. destruct p'; contradiction. }
    destruct Hleast as (p0 & Hp0 & Hbefore).
    pose proof (Hfirst p0 Hp0 Hbefore) as HR0.
    rewrite HR0 in HR. injection HR as HR. apply message_injective in HR.
    subst p0. split; assumption.
  - intros [Hp Hbefore]. now apply Hfirst.
Qed.

Lemma validate_reports_first_violation_witness :
  _validate_parameters (mkModel 100 0 2 (-1) (1 / 2) 0)
  = Raise (ValueError (message Area)).
Proof.
  apply validate_reports_first_violation. split; [simpl; lra|].
  intros q; destruct q; simpl; intros; try lia. lra.
Defined.

(** ** Evaluation on any shapes *)

Lemma entries_nd_map (f : R -> R) (a : ndarray) :
  entries (nd_map f a) = map f (entries a).
Proof. destruct a; reflexivity. Qed.

(** X2.  Whatever the parameters (valid or not) and the shapes of the position
    and time arguments, a result that [calculate_concentration] returns has
    no negative entry. *)
Theorem calculate_concentration_nonnegative (M : Model) (x t r : ndarray) :
  calculate_concentration M x t = Ok r ->
  Forall (fun c => 0 <= c) (entries r).
Proof.
  unfold calculate_concentration. destruct (any_le_0 t).
  - intros H. injection H as <-. unfold zeros_like.
    rewrite entries_nd_map. apply Forall_forall. intros c Hc.
    apply in_map_iff in Hc. destruct Hc as (? & <- & _). lra.
  - destruct (nd_map2 Rminus x _) as [d|e]; cbn [bind]; [|discriminate].
    destruct (nd_map2 Rdiv _ _) as [tr|e]; cbn [bind]; [|discriminate].
    destruct (nd_map2 Rplus _ _) as [ex|e]; cbn [bind]; [|discriminate].
    destruct (nd_map2 Rmult _ _) as [c|e]; cbn [bind]; [|discriminate].
    intros H. injection H as <-. rewrite entries_nd_map.
    apply Forall_forall. intros v Hv. apply in_map_iff in Hv.
    destruct Hv as (c0 & <- & _). apply Rmax_r.
Qed.

Lemma calculate_concentration_nonnegative_witness :
  calculate_concentration default_model (Array [-50; 0; 100]) (Scalar (-1))
  = Ok (Array [0; 0; 0])
  /\ Forall (fun c => 0 <= c) (entries (Array [0; 0; 0])).
Proof.
  assert (H : calculate_concentration default_model (Array [-50; 0; 100]) (Scalar (-1))
              = Ok (Array [0; 0; 0])).
  { rewrite calculate_concentration_le_0 by lra. reflexivity. }
  split; [exact H|].
  exact (calculate_concentration_nonnegative default_model _ _ _ H).
Defined.

(** *** Two arrays *)

Lemma zip_with_length (f : R -> R -> R) (xs ys : list R) :
  length xs = length ys -> length (zip_with f xs ys) = length ys.
Proof.
  revert ys. induction xs as [|x xs IH]; intros [|y ys] H; simpl in *;
    try reflexivity; try discriminate.
  f_equal. apply IH. now injection H.
Qed.

Lemma zip_with_map_r (f : R -> R -> R) (g : R -> R) (xs ts : list R) :
  zip_with f xs (map g ts) = zip_with (fun x t => f x (g t)) xs ts.
Proof.
  revert ts. induction xs as [|x xs IH]; intros [|t ts]; simpl; try reflexivity.
  now rewrite IH.
Qed.

Lemma map_zip_with (g : R -> R) (f : R -> R -> R) (xs ts : list R) :
  map g (zip_with f xs ts) = zip_with (fun x t => g (f x t)) xs ts.
Proof.
  revert ts. induction xs as [|x xs IH]; intros [|t ts]; simpl; try reflexivity.
  now rewrite IH.
Qed.

Lemma zip_with_zip_map (f g : R -> R -> R) (h : R -> R) (xs ts : list R) :
  zip_with f (zip_with g xs ts) (map h ts)
  = zip_with (fun x t => f (g x t) (h t)) xs ts.
Proof.
  revert ts. induction xs as [|x xs IH]; intros [|t ts]; simpl; try reflexivity.
  now rewrite IH.
Qed.

Lemma zip_with_map_zip (f g : R -> R -> R) (h : R -> R) (xs ts : list R) :
  length xs = length ts ->
  zip_with f (map h ts) (zip_with g xs ts)
  = zip_with (fun x t => f (h t) (g x t)) xs ts.
Proof.
  revert ts. induction xs as [|x xs IH]; intros [|t ts] H; simpl in *;
    try reflexivity; try discriminate.
  rewrite IH; [reflexivity | now injection H].
Qed.

Lemma nd_map2_arrays (f : R -> R -> R) (xs ys : list R) :
  length xs = length ys ->
  nd_map2 f (Array xs) (Array ys) = Ok (Array (zip_with f xs ys)).
Proof. intros H. simpl. rewrite H, Nat.eqb_refl. reflexivity. Qed.

(** X3.  Positions and times given as two arrays of one length are paired
    entry by entry: with every time positive, entry [i] of the result is the
    value at position [i] and time [i] (a diagonal, not a grid). *)
Theorem calculate_concentration_paired (M : Model) (xs ts : list R) :
  length xs = length ts -> Forall (fun t => 0 < t) ts ->
  calculate_concentration M (Array xs) (Array ts)
  = Ok (Array (zip_with (fun x t => spec_concentration M x t) xs ts)).
Proof.
  intros Hlen Hts. unfold calculate_concentration.
  apply any_le_0_array_false in Hts. rewrite Hts.
  assert (Hz : forall f, length (zip_with f xs ts) = length ts)
    by (intros f; now apply zip_with_length).
  cbn [nd_map].
  rewrite nd_map2_arrays by (now rewrite length_map).
  cbn [bind nd_map]. rewrite zip_with_map_r, !map_zip_with.
  rewrite nd_map2_arrays by (now rewrite length_map, Hz).
  cbn [bind]. rewrite zip_with_zip_map.
  rewrite nd_map2_arrays by (now rewrite length_map, Hz).
  cbn [bind nd_map]. rewrite zip_with_map_zip by exact Hlen.
  rewrite !map_zip_with, !map_map.
  rewrite nd_map2_arrays by (now rewrite length_map, Hz).
  cbn [bind nd_map]. rewrite zip_with_map_zip by exact Hlen.
  rewrite map_zip_with. do 2 f_equal.
  clear. revert ts. induction xs as [|x xs IH]; intros [|t ts]; simpl;
    try reflexivity.
  rewrite IH. f_equal. apply concentration_at_spec.
Qed.

Lemma calculate_concentration_paired_witness :
  length [0; 10] = length [50; 100] /\ Forall (fun t => 0 < t) [50; 100]
  /\ calculate_concentration default_model (Array [0; 10]) (Array [50; 100])
     = Ok (Array [spec_concentration default_model 0 50;
                  spec_concentration default_model 10 100]).
Proof.
  assert (H : Forall (fun t => 0 < t) [50; 100]) by (repeat constructor; lra).
  split; [reflexivity|]. split; [exact H|].
  exact (calculate_concentration_paired default_model [0; 10] [50; 100] eq_refl H).
Defined.

Lemma any_le_0_array_true (ts : list R) :
  any_le_0 (Array ts) = true <-> Exists (fun t => t <= 0) ts.
Proof.
  unfold any_le_0; simpl. rewrite existsb_exists, Exists_exists.
  split; intros (t & Hin & Ht); exists t; split; try assumption;
    now apply Rleb_true.
Qed.

(** X4.  Two arrays whose lengths differ, neither of length one, cannot be
    broadcast: with every time positive the evaluation raises a
    [ValueError].  The test of the times comes first, though: as soon as one
    time is [<= 0] the same arguments return zeros in the shape of the
    positions and no error. *)
Theorem calculate_concentration_shape_mismatch (M : Model) (xs ts : list R) :
  length xs <> length ts -> length xs <> 1%nat -> length ts <> 1%nat ->
  (Forall (fun t => 0 < t) ts ->
     exists msg, calculate_concentration M (Array xs) (Array ts)
                 = Raise (ValueError msg))
  /\ (Exists (fun t => t <= 0) ts ->
        calculate_concentration M (Array xs) (Array ts)
        = Ok (Array (map (fun _ => 0) xs))).
Proof.
  intros Hne Hx1 Ht1. split.
  - intros Hts. unfold calculate_concentration.
    apply any_le_0_array_false in Hts. rewrite Hts.
    cbn [nd_map nd_map2]. rewrite length_map.
    apply Nat.eqb_neq in Hne. rewrite Hne.
    destruct xs as [|x [|x' xs]]; destruct ts as [|t [|t' ts]];
      simpl in *; try congruence; eauto.
  - intros Hts. unfold calculate_concentration.
    apply any_le_0_array_true in Hts. now rewrite Hts.
Qed.

Lemma calculate_concentration_shape_mismatch_witness :
  length [0; 1; 2] <> length [1; 2] /\ length [0; 1; 2] <> 1%nat
  /\ length [1; 2] <> 1%nat /\ Forall (fun t => 0 < t) [1; 2]
  /\ exists msg, calculate_concentration default_model (Array [0; 1; 2]) (Array [1; 2])
                 = Raise (ValueError msg).
Proof.
  assert (H1 : length [0; 1; 2] <> length [1; 2]) by (simpl; lia).
  assert (H2 : length [0; 1; 2] <> 1%nat) by (simpl; lia).
  assert (H3 : length [1; 2] <> 1%nat) by (simpl; lia).
  assert (H4 : Forall (fun t => 0 < t) [1; 2]) by (repeat constructor; lra).
  repeat (split; [assumption|]).
  exact (proj1 (calculate_concentration_shape_mismatch default_model
                  [0; 1; 2] [1; 2] H1 H2 H3) H4).
Defined.

(** ** Shape of the profile at one time *)

Lemma clip_high (e : R) : 700 <= e -> clip e (-700) 700 = 700.
Proof.
  intros He. unfold clip, Rmin, Rmax.
  destruct (Rle_dec e (-700)); [lra|].
  destruct (Rle_dec e 700); lra.
Qed.

Lemma clip_bounds (e : R) : -700 <= clip e (-700) 700 <= 700.
Proof.
  destruct (Rle_dec e (-700)); [rewrite clip_low by assumption; lra|].
  destruct (Rle_dec 700 e); [rewrite clip_high by assumption; lra|].
  rewrite clip_inside by lra. lra.
Qed.

Lemma clip_monotone (e1 e2 : R) :
  e1 <= e2 -> clip e1 (-700) 700 <= clip e2 (-700) 700.
Proof.
  intros H. pose proof (clip_bounds e1). pose proof (clip_bounds e2).
  destruct (Rle_dec e1 (-700)); [rewrite (clip_low e1) by assumption; lra|].
  destruct (Rle_dec 700 e2); [rewrite (clip_high e2) by assumption; lra|].
  rewrite !clip_inside by lra. exact H.
Qed.

Lemma exp_monotone (a b : R) : a <= b -> exp a <= exp b.
Proof.
  intros [H | ->]; [left; now apply exp_increasing | right; reflexivity].
Qed.

(** Closer to the plume centre [u t] is never lower. *)
Lemma concentration_at_closer (M : Model) (x1 x2 t : R) :
  valid_parameters M -> 0 < t ->
  (x2 - u M * t) ^ 2 <= (x1 - u M * t) ^ 2 ->
  concentration_at M x1 t <= concentration_at M x2 t.
Proof.
  intros HM Ht Hd.
  rewrite !concentration_at_unfloored by assumption. unfold unfloored_at.
  apply Rmult_le_compat_l; [left; now apply coeff_at_pos|].
  apply exp_monotone, clip_monotone. unfold exponent_at.
  destruct HM as (_ & _ & _ & _ & HDL & _).
  assert (Hden : 0 < / (4 * DL M * t)).
  { apply Rinv_0_lt_compat. apply Rmult_lt_0_compat; lra. }
  unfold Rdiv.
  apply Rplus_le_compat_l.
  apply Rmult_le_compat_r; lra.
Qed.

(** X5.  For valid parameters and [t > 0] the value at any position is at most
    the value at the plume centre [u t], which is the coefficient times
    exp of the clamped decay exponent and at most the coefficient
    m / (2 n W sqrt(pi DL t)). *)
Theorem calculate_concentration_peak_at_centre (M : Model) (x t : R) :
  valid_parameters M -> 0 < t ->
  exists c cmax,
    calculate_concentration M (Scalar x) (Scalar t) = Ok (Scalar c)
    /\ calculate_concentration M (Scalar (u M * t)) (Scalar t) = Ok (Scalar cmax)
    /\ c <= cmax
    /\ cmax = coeff_at M t * exp (clip (- lambda_decay M * t) (-700) 700)
    /\ cmax <= coeff_at M t.
Proof.
  intros HM Ht.
  exists (concentration_at M x t), (concentration_at M (u M * t) t).
  rewrite !calculate_concentration_positions by exact Ht. simpl.
  split; [reflexivity|]. split; [reflexivity|].
  assert (Hcentre : exponent_at M (u M * t) t = - lambda_decay M * t).
  { unfold exponent_at, Rdiv. ring. }
  split; [|split].
  - apply concentration_at_closer; try assumption.
    replace (u M * t - u M * t) with 0 by ring.
    rewrite pow_i by lia. apply pow2_ge_0.
  - rewrite concentration_at_unfloored by assumption.
    unfold unfloored_at. now rewrite Hcentre.
  - rewrite concentration_at_unfloored by assumption. unfold unfloored_at.
    pose proof (coeff_at_pos M t HM Ht) as Hc.
    pose proof (exponent_at_nonpos M (u M * t) t HM Ht) as He.
    assert (Hexp : exp (clip (exponent_at M (u M * t) t) (-700) 700) <= 1).
    { rewrite <- exp_0. apply exp_monotone.
      apply Rle_trans with (clip 0 (-700) 700); [now apply clip_monotone|].
      rewrite clip_inside; lra. }
    nra.
Qed.

Lemma calculate_concentration_peak_at_centre_witness :
  valid_parameters default_model /\ 0 < 100 /\
  exists c cmax,
    calculate_concentration default_model (Scalar 25) (Scalar 100) = Ok (Scalar c)
    /\ calculate_concentration default_model (Scalar (u default_model * 100)) (Scalar 100)
       = Ok (Scalar cmax)
    /\ c <= cmax
    /\ cmax = coeff_at default_model 100
              * exp (clip (- lambda_decay default_model * 100) (-700) 700)
    /\ cmax <= coeff_at default_model 100.
Proof.
  split; [exact default_model_valid|]. split; [lra|].
  apply (calculate_concentration_peak_at_centre default_model 25 100).
  - exact default_model_valid.
  - lra.
Defined.

(** X6.  The clamp is a floor, not a cut to zero: for valid parameters and
    [t > 0] no value is below the coefficient times exp(-700), and every
    position whose exponent is at or below -700 gets exactly that value. *)
Theorem calculate_concentration_floor_value (M : Model) (x t : R) :
  valid_parameters M -> 0 < t ->
  exists c,
    calculate_concentration M (Scalar x) (Scalar t) = Ok (Scalar c)
    /\ coeff_at M t * exp (-700) <= c
    /\ (exponent_at M x t <= -700 -> c = coeff_at M t * exp (-700)).
Proof.
  intros HM Ht. exists (concentration_at M x t).
  rewrite calculate_concentration_positions by exact Ht. simpl.
  split; [reflexivity|].
  rewrite concentration_at_unfloored by assumption. unfold unfloored_at.
  pose proof (coeff_at_pos M t HM Ht) as Hc. split.
  - apply Rmult_le_compat_l; [lra|]. apply exp_monotone, clip_bounds.
  - intros He. now rewrite clip_low.
Qed.

Lemma calculate_concentration_floor_value_witness :
  valid_parameters default_model /\ 0 < 1 /\
  exists c,
    calculate_concentration default_model (Scalar 100) (Scalar 1) = Ok (Scalar c)
    /\ coeff_at default_model 1 * exp (-700) <= c
    /\ (exponent_at default_model 100 1 <= -700
        -> c = coeff_at default_model 1 * exp (-700)).
Proof.
  split; [exact default_model_valid|]. split; [lra|].
  apply (calculate_concentration_floor_value default_model 100 1).
  - exact default_model_valid.
  - lra.
Defined.

(** ** The reported range *)

Lemma find_concentration_range_some (x cs : list R) (limit a b : R) :
  find_concentration_range x cs limit = Ok (Some a, Some b) ->
  exists i0 i1,
    first_exceeding cs limit i0 /\ last_exceeding cs limit i1
    /\ nth_error x i0 = Some a /\ nth_error x i1 = Some b /\ (i0 <= i1)%nat.
Proof.
  unfold find_concentration_range.
  destruct (np_where (gt_mask cs limit)) as [|i0 rest] eqn:E; [discriminate|].
  pose proof (np_where_first _ _ _ _ E) as Hf.
  pose proof (np_where_last _ _ _ _ E) as Hl.
  unfold getitem.
  destruct (nth_error x i0) as [a'|] eqn:Ea; cbn [bind]; [|discriminate].
  destruct (nth_error x (last (i0 :: rest) i0)) as [b'|] eqn:Eb; cbn [bind];
    [|discriminate].
  intros H. injection H as <- <-.
  exists i0, (last (i0 :: rest) i0). repeat split; try apply Hf; try apply Hl; auto.
  destruct (Nat.le_gt_cases i0 (last (i0 :: rest) i0)) as [Hle|Hgt]; [exact Hle|].
  exfalso. destruct Hl as [Hex _]. destruct Hf as [_ Hmin]. exact (Hmin _ Hgt Hex).
Qed.

Lemma find_concentration_range_shape (x cs : list R) (limit : R)
    (s e : option R) :
  find_concentration_range x cs limit = Ok (s, e) ->
  (s = None /\ e = None /\ forall i, ~ exceeds cs limit i)
  \/ (exists a b, s = Some a /\ e = Some b).
Proof.
  unfold find_concentration_range.
  destruct (np_where (gt_mask cs limit)) as [|i0 rest] eqn:E.
  - intros H. injection H as <- <-. left.
    repeat split. now apply np_where_nil.
  - unfold getitem.
    destruct (nth_error x i0); cbn [bind]; [|discriminate].
    destruct (nth_error x (last (i0 :: rest) i0)); cbn [bind]; [|discriminate].
    intros H. injection H as <- <-. right. eauto.
Qed.

Lemma find_concentration_range_raise_inv (x cs : list R) (limit : R) (e : exn) :
  find_concentration_range x cs limit = Raise e ->
  e = IndexError /\ exists i, exceeds cs limit i /\ (length x <= i)%nat.
Proof.
  unfold find_concentration_range.
  destruct (np_where (gt_mask cs limit)) as [|i0 rest] eqn:E; [discriminate|].
  pose proof (np_where_first _ _ _ _ E) as Hf.
  pose proof (np_where_last _ _ _ _ E) as Hl.
  unfold getitem.
  destruct (nth_error x i0) as [a|] eqn:Ea; cbn [bind].
  - destruct (nth_error x (last (i0 :: rest) i0)) as [b|] eqn:Eb; cbn [bind];
      [discriminate|].
    intros H. injection H as <-. split; [reflexivity|].
    exists (last (i0 :: rest) i0). split; [apply Hl | now apply nth_error_None].
  - intros H. injection H as <-. split; [reflexivity|].
    exists i0. split; [apply Hf | now apply nth_error_None].
Qed.

(** X7.  Positions and concentrations of different lengths: the range finder
    raises exactly when some concentration above the limit sits at an index
    the positions do not have, and the error is an [IndexError]; positions
    beyond the concentrations are ignored. *)
Theorem find_concentration_range_index_error (x cs : list R) (limit : R) :
  (forall e, find_concentration_range x cs limit = Raise e -> e = IndexError)
  /\ (find_concentration_range x cs limit = Raise IndexError
      <-> exists i, exceeds cs limit i /\ (length x <= i)%nat).
Proof.
  split; [intros e He; now apply (find_concentration_range_raise_inv x cs limit)|].
  split; [intros He; now apply (find_concentration_range_raise_inv x cs limit IndexError)|].
  intros (i & Hi & Hlen).
  destruct (find_concentration_range x cs limit) as [[s f]|e] eqn:E.
  - exfalso.
    destruct (find_concentration_range_shape _ _ _ _ _ E)
      as [(_ & _ & Hnone) | (a & b & -> & ->)]; [exact (Hnone i Hi)|].
    destruct (find_concentration_range_some _ _ _ _ _ E)
      as (_ & i1 & _ & [_ Hmax] & _ & Hb & _).
    assert (i1 < length x)%nat by (apply nth_error_Some; rewrite Hb; discriminate).
    apply (Hmax i); [lia | exact Hi].
  - now destruct (find_concentration_range_raise_inv _ _ _ _ E) as [-> _].
Qed.

Lemma sorted_nth_le (xs : list R) :
  StronglySorted Rle xs ->
  forall i j a b, (i <= j)%nat ->
    nth_error xs i = Some a -> nth_error xs j = Some b -> a <= b.
Proof.
  induction 1 as [|x xs Hs IH Hall]; intros i j a b Hij Ha Hb.
  - destruct i; discriminate.
  - destruct i as [|i], j as [|j]; simpl in *; try lia.
    + injection Ha as <-. injection Hb as <-. lra.
    + injection Ha as <-. rewrite Forall_forall in Hall.
      apply Hall. eapply nth_error_In; eassumption.
    + apply (IH i j); [lia | assumption | assumption].
Qed.

(** X8.  For positions in non-decreasing order the reported ends are ordered and
    enclose every sample whose concentration is above the limit (the outer
    envelope of the exceedance). *)
Theorem find_concentration_range_envelope (x cs : list R) (limit a b : R) :
  StronglySorted Rle x ->
  find_concentration_range x cs limit = Ok (Some a, Some b) ->
  a <= b
  /\ forall i xi, exceeds cs limit i -> nth_error x i = Some xi -> a <= xi <= b.
Proof.
  intros Hs Hr.
  destruct (find_concentration_range_some _ _ _ _ _ Hr)
    as (i0 & i1 & [_ Hmin] & [_ Hmax] & Ha & Hb & Hle).
  split; [exact (sorted_nth_le x Hs i0 i1 a b Hle Ha Hb)|].
  intros i xi Hi Hxi.
  assert (i0 <= i)%nat.
  { destruct (Nat.le_gt_cases i0 i) as [H|H]; [exact H|]. exfalso. exact (Hmin _ H Hi). }
  assert (i <= i1)%nat.
  { destruct (Nat.le_gt_cases i i1) as [H'|H']; [exact H'|]. exfalso. exact (Hmax _ H' Hi). }
  split; [exact (sorted_nth_le x Hs i0 i a xi ltac:(assumption) Ha Hxi)
         | exact (sorted_nth_le x Hs i i1 xi b ltac:(assumption) Hxi Hb)].
Qed.

Lemma find_concentration_range_envelope_witness :
  StronglySorted Rle [0; 1; 2; 3]
  /\ find_concentration_range [0; 1; 2; 3] [0; 1; 1; 0] (1 / 2) = Ok (Some 1, Some 2)
  /\ 1 <= 2.
Proof.
  assert (Hs : StronglySorted Rle [0; 1; 2; 3]).
  { repeat (constructor; [|repeat constructor; lra]). constructor. }
  assert (Hr : find_concentration_range [0; 1; 2; 3] [0; 1; 1; 0] (1 / 2)
               = Ok (Some 1, Some 2)).
  { unfold find_concentration_range, np_where, gt_mask. simpl.
    decide_Rgtb. reflexivity. }
  split; [exact Hs|]. split; [exact Hr|].
  exact (proj1 (find_concentration_range_envelope _ _ _ _ _ Hs Hr)).
Defined.

(** X9.  On a profile the model computed (valid parameters, [t > 0]) the range
    has no gap: every sampled position between the two reported ends has a
    concentration above the limit. *)
Theorem exceedance_range_without_gap
    (M : Model) (xs cs : list R) (t limit a b : R) :
  valid_parameters M -> 0 < t ->
  calculate_concentration M (Array xs) (Scalar t) = Ok (Array cs) ->
  find_concentration_range xs cs limit = Ok (Some a, Some b) ->
  forall i xi c, nth_error xs i = Some xi -> nth_error cs i = Some c ->
                 a <= xi <= b -> c > limit.
Proof.
  intros HM Ht Hcs Hr i xi c Hxi Hc Hin.
  rewrite calculate_concentration_positions in Hcs by exact Ht.
  simpl in Hcs. injection Hcs as <-.
  assert (Hval : forall j xj cj, nth_error xs j = Some xj ->
            nth_error (map (fun x => concentration_at M x t) xs) j = Some cj ->
            cj = concentration_at M xj t).
  { intros j xj cj Hxj Hcj.
    rewrite (map_nth_error (fun x => concentration_at M x t) j xs Hxj) in Hcj.
    now injection Hcj. }
  destruct (find_concentration_range_some _ _ _ _ _ Hr)
    as (i0 & i1 & [(c0 & Hc0 & Hgt0) _] & [(c1 & Hc1 & Hgt1) _] & Ha & Hb & _).
  rewrite (Hval _ _ _ Ha Hc0) in Hgt0. rewrite (Hval _ _ _ Hb Hc1) in Hgt1.
  rewrite (Hval _ _ _ Hxi Hc).
  destruct (Rle_dec (u M * t) xi) as [Hright|Hleft].
  - assert (concentration_at M b t <= concentration_at M xi t).
    { apply concentration_at_closer; try assumption. nra. }
    lra.
  - assert (concentration_at M a t <= concentration_at M xi t).
    { apply concentration_at_closer; try assumption. nra. }
    lra.
Qed.

Lemma exceedance_range_without_gap_witness :
  valid_parameters default_model /\ 0 < 100
  /\ calculate_concentration default_model (Array [0; 10; 20]) (Scalar 100)
     = Ok (Array (map (fun x => concentration_at default_model x 100) [0; 10; 20]))
  /\ find_concentration_range [0; 10; 20]
       (map (fun x => concentration_at default_model x 100) [0; 10; 20]) 0
     = Ok (Some 0, Some 20)
  /\ concentration_at default_model 10 100 > 0.
Proof.
  assert (Hc : calculate_concentration default_model (Array [0; 10; 20]) (Scalar 100)
     = Ok (Array (map (fun x => concentration_at default_model x 100) [0; 10; 20])))
    by (apply calculate_concentration_positions; lra).
  assert (Hpos : forall x, Rgtb (concentration_at default_model x 100) 0 = true).
  { intros x. apply Rgtb_true.
    rewrite concentration_at_unfloored by (try exact default_model_valid; lra).
    apply unfloored_at_pos; [exact default_model_valid | lra]. }
  assert (Hr : find_concentration_range [0; 10; 20]
       (map (fun x => concentration_at default_model x 100) [0; 10; 20]) 0
     = Ok (Some 0, Some 20)).
  { unfold find_concentration_range, np_where, gt_mask. simpl.
    rewrite !Hpos. reflexivity. }
  split; [exact default_model_valid|]. split; [lra|].
  split; [exact Hc|]. split; [exact Hr|].
  apply (exceedance_range_without_gap default_model _ _ 100 0 0 20
           default_model_valid ltac:(lra) Hc Hr 1%nat 10);
    [reflexivity | reflexivity | lra].
Defined.

(** ** Analysis of one profile *)

(** What a returned analysis was computed from. *)
Lemma analyze_results_inv (x cs : list R) (std det : R) (r : analysis) :
  analyze_results x cs std det = Return r ->
  exists i,
    np_max cs = Ok (max_concentration r)
    /\ np_argmax cs = Ok i
    /\ nth_error x i = Some (max_position r)
    /\ find_concentration_range x cs std = Ok (exceed_start r, exceed_end r)
    /\ find_concentration_range x cs det = Ok (influence_start r, influence_end r)
    /\ format_range (exceed_start r) (exceed_end r) "无超标" = Return (exceed_range r)
    /\ format_range (influence_start r) (influence_end r) "无影响"
       = Return (influence_range r).
Proof.
  unfold analyze_results.
  destruct (np_max cs) as [mx|]; cbn [lift and_then]; [|discriminate].
  destruct (np_argmax cs) as [i|]; cbn [lift and_then]; [|discriminate].
  unfold getitem at 1.
  destruct (nth_error x i) as [xm|] eqn:Ex; cbn [lift and_then]; [|discriminate].
  destruct (find_concentration_range x cs std) as [[es ee]|];
    cbn [lift and_then fst snd]; [|discriminate].
  destruct (format_range es ee "无超标") as [er|] eqn:Eer; cbn [and_then];
    [|discriminate].
  destruct (find_concentration_range x cs det) as [[is_ ie]|];
    cbn [lift and_then fst snd]; [|discriminate].
  destruct (format_range is_ ie "无影响") as [ir|] eqn:Eir; cbn [and_then];
    [|discriminate].
  intros H. injection H as <-. simpl. exists i. repeat split; assumption.
Qed.

(** X11.  The analysis never fails on the formatting: whatever the arrays, the
    exception it raises, if any, is one of numpy's or of the indexing. *)
Theorem analyze_results_errors (x cs : list R) (std det : R) (e : exception) :
  analyze_results x cs std det = Throw e ->
  (exists msg, e = Of (ValueError msg) /\ cs = [])
  \/ (e = Of IndexError /\ (length x < length cs)%nat).
Proof.
  unfold analyze_results.
  destruct cs as [|c0 rest] eqn:Ecs.
  { simpl. intros H. injection H as <-. left. eauto. }
  rewrite <- Ecs.
  assert (Hne : cs <> []) by (rewrite Ecs; discriminate).
  destruct (np_argmax_spec cs Hne) as (i & mx & Harg & Hmax & Hi & _).
  rewrite Hmax, Harg. cbn [lift and_then].
  assert (Hfind : forall limit e',
    find_concentration_range x cs limit = Raise e' ->
    e' = IndexError /\ (length x < length cs)%nat).
  { intros limit e' Ef.
    destruct (find_concentration_range_raise_inv _ _ _ _ Ef) as (-> & j & Hj & Hlen).
    split; [reflexivity|]. apply exceeds_in_range in Hj. lia. }
  assert (Hfmt : forall limit s f k,
    find_concentration_range x cs limit = Ok (s, f) ->
    exists rt, format_range s f k = Return rt).
  { intros limit s f k Hf.
    destruct (find_concentration_range_shape _ _ _ _ _ Hf)
      as [(-> & -> & _) | (a & b & -> & ->)]; simpl; eauto. }
  unfold getitem at 1. destruct (nth_error x i) as [xm|] eqn:Ex; cbn [lift and_then].
  2:{ intros H. injection H as <-. right. split; [reflexivity|].
      apply nth_error_None in Ex.
      assert (i < length cs)%nat by (apply nth_error_Some; rewrite Hi; discriminate).
      lia. }
  destruct (find_concentration_range x cs std) as [[es ee]|e1] eqn:E1;
    cbn [lift and_then fst snd].
  2:{ intros H. injection H as <-. right.
      destruct (Hfind std e1 E1) as [-> Hlen]. split; [reflexivity | exact Hlen]. }
  destruct (Hfmt std es ee "无超标"%string E1) as [er ->]. cbn [and_then].
  destruct (find_concentration_range x cs det) as [[is_ ie]|e2] eqn:E2;
    cbn [lift and_then fst snd].
  2:{ intros H. injection H as <-. right.
      destruct (Hfind det e2 E2) as [-> Hlen]. split; [reflexivity | exact Hlen]. }
  destruct (Hfmt det is_ ie "无影响"%string E2) as [ir ->]. cbn [and_then].
  discriminate.
Qed.

Lemma analyze_results_errors_witness :
  analyze_results [0; 1] [] (1 / 2) (1 / 20)
  = Throw (Of (ValueError "zero-size array to reduction operation maximum which has no identity"))
  /\ ((exists msg, Of (ValueError "zero-size array to reduction operation maximum which has no identity")
                   = Of (ValueError msg) /\ @nil R = [])
      \/ (Of (ValueError "zero-size array to reduction operation maximum which has no identity")
          = Of IndexError /\ (length [0; 1] < length (@nil R))%nat)).
Proof.
  split; [reflexivity|].
  exact (analyze_results_errors [0; 1] [] (1 / 2) (1 / 20) _ eq_refl).
Defined.

Lemma exceeds_iff_max (cs : list R) (mx limit : R) :
  np_max cs = Ok mx -> ((forall i, ~ exceeds cs limit i) <-> mx <= limit).
Proof.
  intros Hmax. destruct (np_max_spec cs mx Hmax) as [Hin Hall]. split.
  - intros Hnone. destruct (Rle_dec mx limit) as [H|H]; [exact H|].
    exfalso. apply In_nth_error in Hin. destruct Hin as [i Hi].
    apply (Hnone i). exists mx. split; [exact Hi | lra].
  - intros Hle i (c & Hc & Hgt). apply nth_error_In in Hc.
    specialize (Hall c Hc). lra.
Qed.

Lemma find_concentration_range_cases (x cs : list R) (limit : R) :
  length x = length cs ->
  find_concentration_range x cs limit = Ok (None, None)
  \/ exists a b, find_concentration_range x cs limit = Ok (Some a, Some b).
Proof.
  intros Hlen.
  destruct (find_concentration_range x cs limit) as [[s f]|e] eqn:E.
  - destruct (find_concentration_range_shape _ _ _ _ _ E)
      as [(-> & -> & _) | (a & b & -> & ->)]; eauto.
  - exfalso.
    destruct (find_concentration_range_raise_inv _ _ _ _ E) as (_ & i & Hi & Hge).
    apply exceeds_in_range in Hi. lia.
Qed.

Lemma analyze_results_total (x cs : list R) (std det : R) :
  length x = length cs -> cs <> [] ->
  exists r, analyze_results x cs std det = Return r.
Proof.
  intros Hlen Hne. unfold analyze_results.
  destruct (np_argmax_spec cs Hne) as (i & mx & Harg & Hmax & Hi & _).
  destruct (getitem_in_range x i) as (xm & _ & Hg).
  { rewrite Hlen. apply nth_error_Some. rewrite Hi. discriminate. }
  rewrite Hmax, Harg. cbn [lift and_then]. rewrite Hg. cbn [lift and_then].
  destruct (find_concentration_range_cases x cs std Hlen) as [-> | (a & b & ->)];
  destruct (find_concentration_range_cases x cs det Hlen) as [-> | (a' & b' & ->)];
    cbn [lift and_then fst snd format_range]; eauto.
Qed.

(** X10.  For positions and concentrations of one non-zero length the analysis
    returns: the maximum of the sample with the position of its first
    occurrence, the two ranges as [find_concentration_range] gives them, and
    for each limit the fixed text exactly when the maximum does not exceed
    the limit, the text of the two ends otherwise. *)
Theorem analyze_results_spec (x cs : list R) (std det : R) :
  length x = length cs -> cs <> [] ->
  exists r,
    analyze_results x cs std det = Return r
    /\ (exists i,
          nth_error cs i = Some (max_concentration r)
          /\ nth_error x i = Some (max_position r)
          /\ (forall c, In c cs -> c <= max_concentration r)
          /\ forall j c, (j < i)%nat -> nth_error cs j = Some c ->
                         c < max_concentration r)
    /\ find_concentration_range x cs std = Ok (exceed_start r, exceed_end r)
    /\ find_concentration_range x cs det = Ok (influence_start r, influence_end r)
    /\ (max_concentration r <= std ->
          exceed_start r = None /\ exceed_end r = None
          /\ exceed_range r = NoRange "无超标")
    /\ (max_concentration r > std ->
          exists a b, exceed_start r = Some a /\ exceed_end r = Some b
                      /\ exceed_range r = RangeText a b)
    /\ (max_concentration r <= det ->
          influence_start r = None /\ influence_end r = None
          /\ influence_range r = NoRange "无影响")
    /\ (max_concentration r > det ->
          exists a b, influence_start r = Some a /\ influence_end r = Some b
                      /\ influence_range r = RangeText a b).
Proof.
  intros Hlen Hne.
  destruct (analyze_results_total x cs std det Hlen Hne) as [r E].
  exists r. split; [exact E|].
  destruct (analyze_results_inv _ _ _ _ _ E)
    as (i & Hmax & Harg & Hxi & Hstd & Hdet & Hfs & Hfd).
  destruct (np_argmax_spec cs Hne) as (i' & mx & Harg' & Hmax' & Hi & Hbefore).
  rewrite Harg in Harg'. injection Harg' as <-.
  rewrite Hmax in Hmax'. injection Hmax' as <-.
  assert (Hrange : forall limit s f k rt,
    find_concentration_range x cs limit = Ok (s, f) ->
    format_range s f k = Return rt ->
    (max_concentration r <= limit -> s = None /\ f = None /\ rt = NoRange k)
    /\ (max_concentration r > limit ->
        exists a b, s = Some a /\ f = Some b /\ rt = RangeText a b)).
  { intros limit s f k rt Hf Hrt.
    pose proof (exceeds_iff_max cs _ limit Hmax) as Hiff.
    destruct (find_concentration_range_shape _ _ _ _ _ Hf)
      as [(-> & -> & Hnone) | (a & b & -> & ->)]; simpl in Hrt;
      injection Hrt as <-.
    - split; [auto|]. intros Hgt. pose proof (proj1 Hiff Hnone). lra.
    - split; [|eauto]. intros Hle. exfalso.
      destruct (find_concentration_range_some _ _ _ _ _ Hf)
        as (i0 & _ & [Hex _] & _). exact (proj2 Hiff Hle i0 Hex). }
  split.
  { exists i. repeat split; try assumption. apply (np_max_spec cs _ Hmax). }
  split; [exact Hstd|]. split; [exact Hdet|].
  destruct (Hrange std _ _ _ _ Hstd Hfs) as [H1 H2].
  destruct (Hrange det _ _ _ _ Hdet Hfd) as [H3 H4].
  split; [exact H1|]. split; [exact H2|]. split; [exact H3 | exact H4].
Qed.

Lemma analyze_results_spec_witness :
  length [0; 1; 2; 3] = length [0; 1; 1; 0] /\ [0; 1; 1; 0] <> []
  /\ exists r, analyze_results [0; 1; 2; 3] [0; 1; 1; 0] (1 / 2) (1 / 20) = Return r.
Proof.
  split; [reflexivity|]. split; [discriminate|].
  destruct (analyze_results_spec [0; 1; 2; 3] [0; 1; 1; 0] (1 / 2) (1 / 20)
              eq_refl ltac:(discriminate)) as (r & Hr & _).
  exists r. exact Hr.
Defined.

(** X12.  With the detection limit at most the standard limit and positions in
    non-decreasing order, an analysis that reports an exceedance range also
    reports an influence range, and the two are nested around the peak:
    influence start <= exceedance start <= position of the maximum
    <= exceedance end <= influence end. *)
Theorem analyze_results_nested (x cs : list R) (std det : R) (r : analysis)
    (a b : R) :
  det <= std -> StronglySorted Rle x ->
  analyze_results x cs std det = Return r ->
  exceed_start r = Some a -> exceed_end r = Some b ->
  exists a' b',
    influence_start r = Some a' /\ influence_end r = Some b'
    /\ a' <= a /\ a <= max_position r /\ max_position r <= b /\ b <= b'.
Proof.
  intros Hle Hs E Ha Hb.
  destruct (analyze_results_inv _ _ _ _ _ E)
    as (im & Hmax & Harg & Hxm & Hstd & Hdet & _ & _).
  rewrite Ha, Hb in Hstd.
  destruct (find_concentration_range_some _ _ _ _ _ Hstd)
    as (i0 & i1 & [Hex0 Hmin] & [Hex1 Hmaxi] & Hxa & Hxb & Hi01).
  assert (Hweak : forall i, exceeds cs std i -> exceeds cs det i).
  { intros i (c & Hc & Hgt). exists c. split; [exact Hc | lra]. }
  destruct (find_concentration_range_shape _ _ _ _ _ Hdet)
    as [(_ & _ & Hnone) | (a' & b' & Ha' & Hb')].
  { exfalso. exact (Hnone i0 (Hweak _ Hex0)). }
  rewrite Ha', Hb' in Hdet.
  destruct (find_concentration_range_some _ _ _ _ _ Hdet)
    as (j0 & j1 & [_ Hmin'] & [_ Hmax'] & Hxa' & Hxb' & _).
  exists a', b'. split; [exact Ha'|]. split; [exact Hb'|].
  assert (Hj0 : (j0 <= i0)%nat).
  { destruct (Nat.le_gt_cases j0 i0) as [H|H]; [exact H|].
    exfalso. exact (Hmin' _ H (Hweak _ Hex0)). }
  assert (Hj1 : (i1 <= j1)%nat).
  { destruct (Nat.le_gt_cases i1 j1) as [H|H]; [exact H|].
    exfalso. exact (Hmax' _ H (Hweak _ Hex1)). }
  (* the index of the maximum is itself above the standard limit *)
  assert (Hne : cs <> []) by (intros ->; discriminate).
  destruct (np_argmax_spec cs Hne) as (im' & mx & Harg' & Hmax'' & Him & _).
  rewrite Harg in Harg'. injection Harg' as <-.
  rewrite Hmax in Hmax''. injection Hmax'' as <-.
  assert (Hexm : exceeds cs std im).
  { destruct Hex0 as (c0 & Hc0 & Hgt0).
    exists (max_concentration r). split; [exact Him|].
    pose proof (proj2 (np_max_spec cs _ Hmax) c0 (nth_error_In _ _ Hc0)). lra. }
  assert (Him0 : (i0 <= im)%nat).
  { destruct (Nat.le_gt_cases i0 im) as [H|H]; [exact H|].
    exfalso. exact (Hmin _ H Hexm). }
  assert (Him1 : (im <= i1)%nat).
  { destruct (Nat.le_gt_cases im i1) as [H|H]; [exact H|].
    exfalso. exact (Hmaxi _ H Hexm). }
  repeat split.
  - exact (sorted_nth_le x Hs j0 i0 a' a Hj0 Hxa' Hxa).
  - exact (sorted_nth_le x Hs i0 im a _ Him0 Hxa Hxm).
  - exact (sorted_nth_le x Hs im i1 _ b Him1 Hxm Hxb).
  - exact (sorted_nth_le x Hs i1 j1 b b' Hj1 Hxb Hxb').
Qed.

Ltac decide_Rmax :=
  repeat match goal with
    | |- context [Rmax ?a ?b] =>
        first [ rewrite (Rmax_left a b) by lra | rewrite (Rmax_right a b) by lra ]
    end.

Lemma analyze_results_example :
  analyze_results [0; 1; 2; 3] [0; 1 / 10; 1; 1 / 10] (1 / 2) (1 / 20)
  = Return (mkAnalysis 1 2 (RangeText 2 2) (RangeText 1 3)
              (Some 2) (Some 2) (Some 1) (Some 3)).
Proof.
  unfold analyze_results, find_concentration_range, np_where, gt_mask.
  simpl. decide_Rmax. decide_Rgtb. reflexivity.
Qed.

Lemma analyze_results_nested_witness :
  1 / 20 <= 1 / 2 /\ StronglySorted Rle [0; 1; 2; 3]
  /\ exists a' b',
       Some 1 = Some a' /\ Some 3 = Some b'
       /\ a' <= 2 /\ 2 <= 2 /\ 2 <= 2 /\ 2 <= b'.
Proof.
  assert (Hs : StronglySorted Rle [0; 1; 2; 3]).
  { repeat (constructor; [|repeat constructor; lra]). constructor. }
  split; [lra|]. split; [exact Hs|].
  exact (analyze_results_nested [0; 1; 2; 3] [0; 1 / 10; 1; 1 / 10] (1 / 2) (1 / 20)
           _ 2 2 ltac:(lra) Hs analyze_results_example eq_refl eq_refl).
Defined.

(** ** Analysis of a computed profile *)

(** X13.  Before the release ([t <= 0]) with limits that are not negative, the
    analysis of the computed profile over a non-empty grid reports the
    maximum 0 at the first grid position and neither range. *)
Theorem analyze_results_before_release
    (M : Model) (x0 : R) (xs cs : list R) (t std det : R) :
  t <= 0 -> 0 <= std -> 0 <= det ->
  calculate_concentration M (Array (x0 :: xs)) (Scalar t) = Ok (Array cs) ->
  analyze_results (x0 :: xs) cs std det
  = Return (mkAnalysis 0 x0 (NoRange "无超标") (NoRange "无影响")
              None None None None).
Proof.
  intros Ht Hstd Hdet Hcs.
  rewrite calculate_concentration_le_0 in Hcs by exact Ht.
  simpl in Hcs. injection Hcs as <-.
  set (zs := map (fun _ : R => 0) xs).
  assert (Hz : forall c, In c zs -> c = 0).
  { intros c Hc. apply in_map_iff in Hc. destruct Hc as (? & Hc & _). now symmetry. }
  assert (Hmax : forall l, (forall c, In c l -> c = 0) -> fold_left Rmax l 0 = 0).
  { induction l as [|c l IH]; intros Hl; simpl; [reflexivity|].
    rewrite (Hl c (or_introl eq_refl)), Rmax_left by lra.
    apply IH. intros c' Hc'. apply Hl. now right. }
  assert (Harg : forall l k, (forall c, In c l -> c = 0) ->
                             argmax_from 0 0%nat k l = 0%nat).
  { induction l as [|c l IH]; intros k Hl; simpl; [reflexivity|].
    rewrite (Hl c (or_introl eq_refl)).
    replace (Rgtb 0 0) with false by (symmetry; apply Rgtb_false; lra).
    apply IH. intros c' Hc'. apply Hl. now right. }
  assert (Hnone : forall limit, 0 <= limit ->
            find_concentration_range (x0 :: xs) (0 :: zs) limit = Ok (None, None)).
  { intros limit Hl. unfold find_concentration_range.
    replace (np_where (gt_mask (0 :: zs) limit)) with (@nil nat); [reflexivity|].
    symmetry. apply np_where_nil. intros i (c & Hc & Hgt).
    apply nth_error_In in Hc. destruct Hc as [<- | Hc]; [lra|].
    rewrite (Hz c Hc) in Hgt. lra. }
  unfold analyze_results. cbn [np_max np_argmax lift and_then map].
  fold zs. rewrite (Hmax zs Hz), (Harg zs 1%nat Hz).
  cbn [getitem nth_error lift and_then].
  rewrite (Hnone std Hstd), (Hnone det Hdet). reflexivity.
Qed.

Lemma analyze_results_before_release_witness :
  0 <= 0 /\ 0 <= 1 / 2 /\ 0 <= 1 / 20
  /\ calculate_concentration default_model (Array [-50; 0; 100]) (Scalar 0)
     = Ok (Array [0; 0; 0])
  /\ analyze_results [-50; 0; 100] [0; 0; 0] (1 / 2) (1 / 20)
     = Return (mkAnalysis 0 (-50) (NoRange "无超标") (NoRange "无影响")
                 None None None None).
Proof.
  assert (Hc : calculate_concentration default_model (Array [-50; 0; 100]) (Scalar 0)
               = Ok (Array [0; 0; 0]))
    by (rewrite calculate_concentration_le_0 by lra; reflexivity).
  split; [lra|]. split; [lra|]. split; [lra|]. split; [exact Hc|].
  exact (analyze_results_before_release default_model (-50) [0; 100] [0; 0; 0]
           0 (1 / 2) (1 / 20) ltac:(lra) ltac:(lra) ltac:(lra) Hc).
Defined.




(** ** Sample grids *)

Lemma ceil_spec (r : R) : IZR (ceil r) - 1 < r <= IZR (ceil r).
Proof.
  unfold ceil. destruct (archimed (- r)) as [H1 H2].
  rewrite minus_IZR. simpl. lra.
Qed.

Lemma arange_count (q : R) :
  let n := Z.to_nat (ceil q) in
  (forall k, (k < n)%nat -> INR k < q)
  /\ q <= INR n
  /\ (n = 0%nat <-> q <= 0).
Proof.
  intros n. destruct (ceil_spec q) as [Hlo Hhi].
  destruct (Z.le_gt_cases (ceil q) 0) as [Hz|Hz].
  - assert (Hn : n = 0%nat) by (unfold n; lia).
    assert (Hq : q <= 0) by (apply IZR_le in Hz; lra).
    rewrite Hn. repeat split; intros; try lia; simpl; lra.
  - assert (HIn : INR n = IZR (ceil q)).
    { unfold n. rewrite INR_IZR_INZ, Z2Nat.id by lia. reflexivity. }
    split; [|split; [lra|]].
    + intros k Hk.
      assert (H : (S k <= n)%nat) by lia.
      apply le_INR in H. rewrite S_INR in H. lra.
    + split; intros H.
      * exfalso. unfold n in H. lia.
      * exfalso. assert (1 <= IZR (ceil q)) by (apply IZR_le; lia). lra.
Qed.

Lemma nth_error_seq_map (f : nat -> R) (n k : nat) (v : R) :
  nth_error (map f (seq 0 n)) k = Some v <-> (k < n)%nat /\ v = f k.
Proof.
  rewrite nth_error_map.
  destruct (Nat.lt_ge_cases k n) as [Hk|Hk].
  - rewrite (nth_error_nth' _ 0%nat) by (now rewrite length_seq).
    rewrite seq_nth by exact Hk. simpl. split.
    + intros H. injection H as <-. auto.
    + intros [_ ->]. reflexivity.
  - assert (Hnone : nth_error (seq 0 n) k = None)
      by (apply nth_error_None; now rewrite length_seq).
    rewrite Hnone. simpl. split; [discriminate | intros [H _]; lia].
Qed.

Lemma map_seq_sorted (f : nat -> R) :
  (forall i j, (i < j)%nat -> f i < f j) ->
  forall len a, StronglySorted Rlt (map f (seq a len)).
Proof.
  intros Hf. induction len as [|len IH]; intros a; simpl; constructor.
  - apply IH.
  - apply Forall_forall. intros v Hv. apply in_map_iff in Hv.
    destruct Hv as (j & <- & Hj). apply in_seq in Hj. apply Hf. lia.
Qed.

Lemma np_arange_entry (start stop step : R) (k : nat) (v : R) :
  0 < step ->
  nth_error (np_arange start stop step) k = Some v ->
  v = start + INR k * step /\ start <= v < stop.
Proof.
  intros Hstep Hk. unfold np_arange in Hk.
  destruct (arange_count ((stop - start) / step)) as (Hlt & _ & _).
  apply nth_error_seq_map in Hk. destruct Hk as [Hk ->].
  split; [reflexivity|]. split.
  - pose proof (pos_INR k). nra.
  - specialize (Hlt k Hk).
    apply (Rmult_lt_compat_r step) in Hlt; [|exact Hstep].
    unfold Rdiv in Hlt. rewrite Rmult_assoc, Rinv_l, Rmult_1_r in Hlt by lra. lra.
Qed.

Lemma np_arange_empty (start stop step : R) :
  0 < step -> (np_arange start stop step = [] <-> stop <= start).
Proof.
  intros Hstep. unfold np_arange.
  destruct (arange_count ((stop - start) / step)) as (_ & _ & Hzero).
  set (len := Z.to_nat (ceil ((stop - start) / step))) in *.
  split.
  - intros Hnil. assert (Hn : len = 0%nat).
    { destruct len; [reflexivity | discriminate]. }
    apply Hzero in Hn.
    apply (Rmult_le_compat_r step) in Hn; [|lra].
    unfold Rdiv in Hn. rewrite Rmult_assoc, Rinv_l, Rmult_1_r in Hn by lra. lra.
  - intros Hle. assert (Hn : len = 0%nat).
    { apply Hzero. unfold Rdiv.
      assert (0 < / step) by (now apply Rinv_0_lt_compat). nra. }
    now rewrite Hn.
Qed.

(** [np.arange] with a positive step: entry [k] is [start + k step], every
    entry lies in [[start, stop)], the entries increase strictly, and there
    is none exactly when [stop <= start]. *)
Theorem np_arange_spec (start stop step : R) :
  0 < step ->
  (forall k v, nth_error (np_arange start stop step) k = Some v ->
               v = start + INR k * step /\ start <= v < stop)
  /\ StronglySorted Rlt (np_arange start stop step)
  /\ (np_arange start stop step = [] <-> stop <= start).
Proof.
  intros Hstep. split; [|split].
  - intros k v Hk. now apply np_arange_entry.
  - unfold np_arange. apply map_seq_sorted.
    intros i j Hij. apply lt_INR in Hij. nra.
  - now apply np_arange_empty.
Qed.

Lemma np_arange_spec_witness :
  0 < 1 /\ (np_arange 0 0 1 = [] <-> 0 <= 0).
Proof.
  split; [lra|].
  exact (proj2 (proj2 (np_arange_spec 0 0 1 ltac:(lra)))).
Defined.



(** ** Scheme two on the front ends' time grid *)

Lemma print_breakthrough_analysis_total (t_range cs : list R) (std det : R) :
  length t_range = length cs -> cs <> [] ->
  exists row, print_breakthrough_analysis t_range cs std det = Ok row.
Proof.
  intros Hlen Hne. unfold print_breakthrough_analysis.
  destruct (np_argmax_spec cs Hne) as (i & mx & Harg & Hmax & Hi & _).
  destruct (getitem_in_range t_range i) as (tm & _ & Hgm).
  { rewrite Hlen. apply nth_error_Some. rewrite Hi. discriminate. }
  rewrite Harg, Hmax.
  destruct (first_crossing_cases t_range cs det Hlen)
    as [[Ed _] | (id & rd & td & Ed & _ & _ & Hgd)];
  destruct (first_crossing_cases t_range cs std Hlen)
    as [[Es _] | (ie & re & te & Es & _ & _ & Hgs)];
  rewrite Ed, Es; try rewrite Hgd; try rewrite Hgs; cbn [bind]; rewrite Hgm;
    cbn [bind]; eauto.
Qed.

Lemma time_grid_positive (tstep tmax : R) :
  0 < tstep -> Forall (fun t => 0 < t) (np_arange tstep (tmax + tstep) tstep).
Proof.
  intros Hstep. apply Forall_forall. intros t Ht.
  apply In_nth_error in Ht. destruct Ht as [k Hk].
  destruct (np_arange_entry _ _ _ k t Hstep Hk) as (_ & Hlo & _). lra.
Qed.

(** X16.  On the time grid [np.arange(tstep, tmax + tstep, tstep)] with a
    positive step every sampled time is positive, so for any model and
    position the evaluation returns one concentration per time, the
    dashboard's breakthrough row is the one the command line computes, and
    with [tmax > 0] that row exists (no exception). *)
Theorem scheme_two_on_time_grid (M : Model) (pos tstep tmax std det : R) :
  0 < tstep ->
  exists cs,
    calculate_concentration M (Scalar pos)
      (Array (np_arange tstep (tmax + tstep) tstep)) = Ok (Array cs)
    /\ length cs = length (np_arange tstep (tmax + tstep) tstep)
    /\ breakthrough_results (np_arange tstep (tmax + tstep) tstep) cs std det
       = print_breakthrough_analysis (np_arange tstep (tmax + tstep) tstep) cs std det
    /\ (0 < tmax ->
        exists row,
          breakthrough_results (np_arange tstep (tmax + tstep) tstep) cs std det
          = Ok row).
Proof.
  intros Hstep.
  pose proof (time_grid_positive tstep tmax Hstep) as Hpos.
  set (t_range := np_arange tstep (tmax + tstep) tstep) in *.
  exists (map (fun t => concentration_at M pos t) t_range).
  split; [now apply calculate_concentration_times|].
  split; [apply length_map|].
  assert (Hagree : breakthrough_results t_range
                     (map (fun t => concentration_at M pos t) t_range) std det
                   = print_breakthrough_analysis t_range
                       (map (fun t => concentration_at M pos t) t_range) std det).
  { apply breakthrough_results_nonzero_times.
    eapply Forall_impl; [|exact Hpos]. simpl. intros t Ht. lra. }
  split; [exact Hagree|].
  intros Htmax. rewrite Hagree.
  destruct (print_breakthrough_analysis_total t_range
              (map (fun t => concentration_at M pos t) t_range) std det)
    as (row & Hrow).
  - now rewrite length_map.
  - intros Hnil. apply map_eq_nil in Hnil.
    apply (np_arange_empty _ _ _ Hstep) in Hnil. lra.
  - eauto.
Qed.

Lemma scheme_two_on_time_grid_witness :
  0 < 1 /\
  exists cs,
    calculate_concentration default_model (Scalar 10)
      (Array (np_arange 1 (365 + 1) 1)) = Ok (Array cs)
    /\ length cs = length (np_arange 1 (365 + 1) 1)
    /\ breakthrough_results (np_arange 1 (365 + 1) 1) cs (1 / 2) (1 / 20)
       = print_breakthrough_analysis (np_arange 1 (365 + 1) 1) cs (1 / 2) (1 / 20)
    /\ (0 < 365 ->
        exists row,
          breakthrough_results (np_arange 1 (365 + 1) 1) cs (1 / 2) (1 / 20)
          = Ok row).
Proof.
  split; [lra|].
  apply (scheme_two_on_time_grid default_model 10 1 365 (1 / 2) (1 / 20)). lra.
Defined.

(** ** The dashboard's model *)

Lemma init_valid (m0 W0 n0 u0 DL0 l0 : R) :
  valid_parameters (mkModel m0 W0 n0 u0 DL0 l0) ->
  init m0 W0 n0 u0 DL0 l0 = Ok (mkModel m0 W0 n0 u0 DL0 l0).
Proof.
  intros Hv. unfold init.
  destruct (validate_cases (mkModel m0 W0 n0 u0 DL0 l0))
    as [[HOk _] | (p & Hp & _)].
  - now rewrite HOk.
  - exfalso. exact (proj1 (valid_no_violation _) Hv p Hp).
Qed.

Lemma init_ok_valid (m0 W0 n0 u0 DL0 l0 : R) (M : Model) :
  init m0 W0 n0 u0 DL0 l0 = Ok M ->
  M = mkModel m0 W0 n0 u0 DL0 l0 /\ valid_parameters M.
Proof.
  unfold init.
  destruct (validate_cases (mkModel m0 W0 n0 u0 DL0 l0))
    as [[HOk Hv] | (p & _ & HR)].
  - rewrite HOk. cbn [bind]. intros H. injection H as <-. auto.
  - rewrite HR. discriminate.
Qed.

(** X18.  With every sidebar value inside its widget's range, the dashboard's
    model is created for every preset, the custom one included, and keeps
    the decay rate of the widget: the parameter error is never shown. *)
Theorem dashboard_model_created (preset : string) (m0 W0 n0 u0 DL0 l0 : R) :
  0.1 <= m0 <= 10000 -> 0.1 <= W0 <= 1000 -> 0.01 <= n0 <= 0.99 ->
  0.001 <= u0 <= 10 -> 0.001 <= DL0 <= 100 -> 0 <= l0 <= 1 ->
  exists M, dashboard_model preset m0 W0 n0 u0 DL0 l0 = Ok M
            /\ valid_parameters M /\ lambda_decay M = l0.
Proof.
  intros Hm HW Hn Hu HDL Hl.
  unfold dashboard_model, preset_parameters.
  destruct (negb (preset =? "自定义")%string);
    repeat match goal with
      | |- context [if (?a =? ?b)%string then _ else _] =>
          destruct (a =? b)%string
      end;
    eexists; (split; [apply init_valid | split; [|reflexivity]]);
    unfold valid_parameters; simpl; lra.
Qed.

Lemma dashboard_model_created_witness :
  0.1 <= 100 <= 10000 /\ 0.1 <= 2 <= 1000 /\ 0.01 <= 0.3 <= 0.99
  /\ 0.001 <= 0.1 <= 10 /\ 0.001 <= 0.5 <= 100 /\ 0 <= 0.02 <= 1
  /\ exists M, dashboard_model "粘土含水层" 100 2 0.3 0.1 0.5 0.02 = Ok M
               /\ valid_parameters M /\ lambda_decay M = 0.02.
Proof.
  repeat (split; [lra|]).
  apply (dashboard_model_created "粘土含水层" 100 2 0.3 0.1 0.5 0.02); lra.
Defined.

(** ** Sensitivity sweeps *)

Lemma for_each_all {A B : Type} (body : A -> outcome B) (P : A -> B -> Prop)
    (items : list A) :
  (forall a, In a items -> exists b, body a = Return b /\ P a b) ->
  exists bs, for_each body items = Return bs /\ Forall2 P items bs.
Proof.
  induction items as [|a rest IH]; intros Hbody; simpl.
  - exists []. split; [reflexivity | constructor].
  - destruct (Hbody a (or_introl eq_refl)) as (b & Hb & HP).
    destruct IH as (bs & Hbs & HF); [intros a' Ha'; apply Hbody; now right|].
    exists (b :: bs). rewrite Hb, Hbs. simpl. split; [reflexivity|].
    now constructor.
Qed.

(** The profile over a grid at one time, for any time. *)
Lemma calculate_concentration_grid (M : Model) (xs : list R) (t : R) :
  calculate_concentration M (Array xs) (Scalar t)
  = Ok (Array (map (fun x => if Rle_dec t 0 then 0 else concentration_at M x t) xs)).
Proof.
  destruct (Rle_dec t 0) as [Ht|Ht].
  - now rewrite calculate_concentration_le_0.
  - rewrite calculate_concentration_positions by lra. reflexivity.
Qed.

Lemma sweep_body (build : R -> result Model) (t value : R) :
  (exists M', build value = Ok M') ->
  exists c,
    (model_temp <~ lift (build value) ;;
     concentrations <~
       lift (calculate_concentration model_temp x_range_sens (Scalar t)) ;;
     Return (value, concentrations)) = Return c
    /\ sweep_curve build t value c.
Proof.
  intros [M' HM']. rewrite HM'. cbn [lift and_then].
  unfold x_range_sens. rewrite calculate_concentration_grid. cbn [lift and_then].
  eexists. split; [reflexivity|]. split; [reflexivity|].
  exists M'. split; [exact HM'|]. split.
  - apply calculate_concentration_grid.
  - simpl. apply length_map.
Qed.

(** X19.  Once the base parameters were accepted, none of the three sweeps
    raises: every test value (the base velocity or dispersion coefficient
    times each factor, each listed decay rate) builds a valid model, and the
    sweep returns one curve per test value, in order, each the profile of
    its model in the shape of the sweep's grid. *)
Theorem sensitivity_sweeps_succeed (m0 W0 n0 u0 DL0 l0 t : R) (M : Model) :
  init m0 W0 n0 u0 DL0 l0 = Ok M ->
  (exists cs, velocity_sweep m0 W0 n0 u0 DL0 l0 t = Return cs
     /\ Forall2 (fun factor c =>
                   sweep_curve (fun v => init m0 W0 n0 v DL0 l0) t (u0 * factor) c)
          [0.5; 0.8; 1.0; 1.5; 2.0] cs)
  /\ (exists cs, dispersion_sweep m0 W0 n0 u0 DL0 l0 t = Return cs
        /\ Forall2 (fun factor c =>
                      sweep_curve (fun v => init m0 W0 n0 u0 v l0) t (DL0 * factor) c)
             [0.2; 0.5; 1.0; 2.0; 5.0] cs)
  /\ (exists cs, reaction_sweep m0 W0 n0 u0 DL0 t = Return cs
        /\ Forall2 (fun value c =>
                      sweep_curve (fun v => init m0 W0 n0 u0 DL0 v) t value c)
             [0; 0.001; 0.005; 0.01; 0.02] cs).
Proof.
  intros HM. apply init_ok_valid in HM. destruct HM as [-> Hv].
  unfold valid_parameters in Hv. simpl in Hv.
  split; [|split].
  - apply (for_each_all _ (fun factor c =>
             sweep_curve (fun v => init m0 W0 n0 v DL0 l0) t (u0 * factor) c)).
    intros f Hf. apply (sweep_body (fun v => init m0 W0 n0 v DL0 l0)).
    eexists. apply init_valid. unfold valid_parameters; simpl.
    simpl in Hf. repeat destruct Hf as [<- | Hf]; try contradiction;
      repeat split; try lra; nra.
  - apply (for_each_all _ (fun factor c =>
             sweep_curve (fun v => init m0 W0 n0 u0 v l0) t (DL0 * factor) c)).
    intros f Hf. apply (sweep_body (fun v => init m0 W0 n0 u0 v l0)).
    eexists. apply init_valid. unfold valid_parameters; simpl.
    simpl in Hf. repeat destruct Hf as [<- | Hf]; try contradiction;
      repeat split; try lra; nra.
  - apply (for_each_all _ (fun value c =>
             sweep_curve (fun v => init m0 W0 n0 u0 DL0 v) t value c)).
    intros f Hf. apply (sweep_body (fun v => init m0 W0 n0 u0 DL0 v)).
    eexists. apply init_valid. unfold valid_parameters; simpl.
    simpl in Hf. repeat destruct Hf as [<- | Hf]; try contradiction;
      repeat split; lra.
Qed.

Lemma sensitivity_sweeps_succeed_witness :
  init 100 2 0.3 0.1 0.5 0 = Ok (mkModel 100 2 0.3 0.1 0.5 0)
  /\ exists cs, reaction_sweep 100 2 0.3 0.1 0.5 100 = Return cs
       /\ Forall2 (fun value c =>
                     sweep_curve (fun v => init 100 2 0.3 0.1 0.5 v) 100 value c)
            [0; 0.001; 0.005; 0.01; 0.02] cs.
Proof.
  assert (H : init 100 2 0.3 0.1 0.5 0 = Ok (mkModel 100 2 0.3 0.1 0.5 0)).
  { apply init_valid. unfold valid_parameters; simpl. lra. }
  split; [exact H|].
  exact (proj2 (proj2 (sensitivity_sweeps_succeed 100 2 0.3 0.1 0.5 0 100 _ H))).
Defined.

Lemma concentration_at_decay_le (m0 W0 n0 u0 DL0 l1 l2 x t : R) :
  valid_parameters (mkModel m0 W0 n0 u0 DL0 l1) -> l1 <= l2 -> 0 < t ->
  concentration_at (mkModel m0 W0 n0 u0 DL0 l2) x t
  <= concentration_at (mkModel m0 W0 n0 u0 DL0 l1) x t.
Proof.
  intros Hv Hl Ht.
  assert (Hv2 : valid_parameters (mkModel m0 W0 n0 u0 DL0 l2))
    by (unfold valid_parameters in *; simpl in *; lra).
  rewrite !concentration_at_unfloored by assumption. unfold unfloored_at.
  change (coeff_at (mkModel m0 W0 n0 u0 DL0 l2) t)
    with (coeff_at (mkModel m0 W0 n0 u0 DL0 l1) t).
  apply Rmult_le_compat_l; [left; now apply coeff_at_pos|].
  apply exp_monotone, clip_monotone. unfold exponent_at; simpl.
  apply Rplus_le_compat_r. nra.
Qed.

(** X20.  The decay sweep orders its curves: the listed rates increase, and each
    curve is, position by position, at most the curve before it (for any
    analysis time, once the parameters are accepted with decay rate 0). *)
Theorem reaction_sweep_ordered (m0 W0 n0 u0 DL0 t : R) (M : Model)
    (cs : list (R * ndarray)) :
  init m0 W0 n0 u0 DL0 0 = Ok M ->
  reaction_sweep m0 W0 n0 u0 DL0 t = Return cs ->
  forall k c1 c2,
    nth_error cs k = Some c1 -> nth_error cs (S k) = Some c2 ->
    fst c1 < fst c2
    /\ Forall2 Rle (entries (snd c2)) (entries (snd c1)).
Proof.
  intros HM Hcs. apply init_ok_valid in HM. destruct HM as [-> Hv].
  assert (Hval : forall l, 0 <= l -> valid_parameters (mkModel m0 W0 n0 u0 DL0 l))
    by (intros l Hl; unfold valid_parameters in *; simpl in *; lra).
  assert (Hstep : forall l1 l2, 0 <= l1 -> l1 <= l2 ->
    Forall2 Rle
      (map (fun x => if Rle_dec t 0 then 0
                     else concentration_at (mkModel m0 W0 n0 u0 DL0 l2) x t)
           (np_arange (-50) 101 2))
      (map (fun x => if Rle_dec t 0 then 0
                     else concentration_at (mkModel m0 W0 n0 u0 DL0 l1) x t)
           (np_arange (-50) 101 2))).
  { intros l1 l2 H1 H12. induction (np_arange (-50) 101 2) as [|x xs IH];
      simpl; constructor; [|exact IH].
    destruct (Rle_dec t 0); [lra|].
    apply concentration_at_decay_le; [now apply Hval | exact H12 | lra]. }
  unfold reaction_sweep in Hcs. cbn [for_each] in Hcs.
  rewrite !init_valid in Hcs by (apply Hval; lra).
  cbn [lift and_then] in Hcs.
  unfold x_range_sens in Hcs. rewrite !calculate_concentration_grid in Hcs.
  cbn [lift and_then] in Hcs. injection Hcs as <-.
  intros k c1 c2 H1 H2.
  destruct k as [|[|[|[|k]]]]; simpl in H1, H2;
    try (destruct k; discriminate);
    injection H1 as <-; injection H2 as <-; simpl;
    (split; [lra | apply Hstep; lra]).
Qed.

Lemma reaction_sweep_ordered_witness :
  init 100 2 0.3 0.1 0.5 0 = Ok (mkModel 100 2 0.3 0.1 0.5 0)
  /\ exists cs, reaction_sweep 100 2 0.3 0.1 0.5 100 = Return cs
       /\ forall k c1 c2,
            nth_error cs k = Some c1 -> nth_error cs (S k) = Some c2 ->
            fst c1 < fst c2
            /\ Forall2 Rle (entries (snd c2)) (entries (snd c1)).
Proof.
  assert (H : init 100 2 0.3 0.1 0.5 0 = Ok (mkModel 100 2 0.3 0.1 0.5 0)).
  { apply init_valid. unfold valid_parameters; simpl. lra. }
  split; [exact H|].
  destruct (for_each_all
              (fun test_value =>
                 model_temp <~ lift (init 100 2 0.3 0.1 0.5 test_value) ;;
                 concentrations <~
                   lift (calculate_concentration model_temp x_range_sens (Scalar 100)) ;;
                 Return (test_value, concentrations))
              (fun _ _ => True) [0; 0.001; 0.005; 0.01; 0.02])
    as (cs & Hcs & _).
  { intros v Hv.
    destruct (sweep_body (fun l => init 100 2 0.3 0.1 0.5 l) 100 v) as (c & Hc & _).
    - eexists. apply init_valid. unfold valid_parameters; simpl.
      simpl in Hv. repeat destruct Hv as [<- | Hv]; try contradiction;
        repeat split; lra.
    - exists c. split; [exact Hc | exact I]. }
  exists cs. split; [exact Hcs|].
  exact (reaction_sweep_ordered 100 2 0.3 0.1 0.5 100 _ cs H Hcs).
Defined.

(** ** The command-line calculator *)

Lemma init_raises_value_error (m0 W0 n0 u0 DL0 l0 : R) (e : exn) :
  init m0 W0 n0 u0 DL0 l0 = Raise e ->
  exists p, violates p (mkModel m0 W0 n0 u0 DL0 l0) /\ e = ValueError (message p).
Proof.
  unfold init.
  destruct (validate_cases (mkModel m0 W0 n0 u0 DL0 l0))
    as [[HOk _] | (p & Hp & HR)].
  - rewrite HOk. discriminate.
  - rewrite HR. cbn [bind]. intros H. injection H as <-. eauto.
Qed.

(** X21.  Whatever is typed, [input_parameters] ends in one of two ways: it
    installs a validated model together with the dictionary of the eight
    values and prints no error line; or it leaves the calculator exactly as
    it was and prints the one generic input-error line -- for a reply that
    is not a number and for a parameter outside its domain alike (the
    message naming the parameter is not shown). *)
Theorem input_parameters_outcome (float : string -> option R)
    (self : GroundwaterCalculator)
    (r_m r_W r_n r_u r_DL r_lambda r_standard r_detection : string) :
  let after := input_parameters float self
                 r_m r_W r_n r_u r_DL r_lambda r_standard r_detection in
  (snd after = None
   /\ (exists M, model (fst after) = Some M) /\ in_step (fst after))
  \/ (snd after = Some "❌ 输入错误: 请输入有效的数值"%string /\ fst after = self).
Proof.
  unfold input_parameters.
  assert (Hparse : forall reply default e,
            float_or float reply default = Raise e -> exists msg, e = ValueError msg).
  { intros reply default e. unfold float_or.
    destruct (String.eqb reply ""); [discriminate|].
    destruct (float reply); [discriminate|]. intros H. injection H as <-. eauto. }
  repeat match goal with
    | |- context [float_or float ?r ?d] =>
        let E := fresh "E" in
        destruct (float_or float r d) as [?v|?e] eqn:E; cbn [bind];
        [|destruct (Hparse _ _ _ E) as [? ->]; right; split; reflexivity]
    end.
  match goal with
  | |- context [init ?a ?b ?c ?d ?e ?f] =>
      destruct (init a b c d e f) as [M|err] eqn:EI
  end; cbn [bind].
  - left. apply init_ok_valid in EI. destruct EI as [-> Hv].
    split; [reflexivity|]. split; [simpl; eauto|].
    unfold in_step. simpl. split; [exact Hv|]. eauto.
  - right.
    destruct (init_raises_value_error _ _ _ _ _ _ _ EI) as (p & _ & ->).
    split; reflexivity.
Qed.

(** *** Sessions *)

Lemma float_or_raises (float : string -> option R) (reply : string)
    (default : R) (e : exn) :
  float_or float reply default = Raise e ->
  (exists msg, e = ValueError msg) /\ reply <> ""%string /\ float reply = None.
Proof.
  unfold float_or. destruct (String.eqb reply "") eqn:Eq; [discriminate|].
  destruct (float reply); [discriminate|].
  intros H. injection H as <-. split; [eauto|]. split; [|reflexivity].
  intros ->. discriminate.
Qed.

Lemma input_parameters_in_step (float : string -> option R)
    (self : GroundwaterCalculator)
    (r_m r_W r_n r_u r_DL r_lambda r_standard r_detection : string) :
  in_step self ->
  in_step (fst (input_parameters float self
                  r_m r_W r_n r_u r_DL r_lambda r_standard r_detection)).
Proof.
  intros Hself. unfold input_parameters.
  repeat match goal with
    | |- context [float_or float ?r ?d] =>
        let E := fresh "E" in
        destruct (float_or float r d) as [?v|?e] eqn:E; cbn [bind];
        [|destruct (float_or_raises _ _ _ _ E) as ([? ->] & _); exact Hself]
    end.
  match goal with
  | |- context [init ?a ?b ?c ?d ?e ?f] =>
      destruct (init a b c d e f) as [M|err] eqn:EI
  end; cbn [bind].
  - apply init_ok_valid in EI. destruct EI as [-> Hv].
    unfold in_step. simpl. split; [exact Hv | eauto].
  - destruct (init_raises_value_error _ _ _ _ _ _ _ EI) as (p & _ & ->).
    exact Hself.
Qed.

Lemma reachable_in_step (float : string -> option R) (self : GroundwaterCalculator) :
  reachable float self -> in_step self.
Proof.
  induction 1 as [|self r1 r2 r3 r4 r5 r6 r7 r8 _ IH].
  - reflexivity.
  - now apply input_parameters_in_step.
Qed.

Lemma for_each_length {A B : Type} (body : A -> outcome B) (items : list A) :
  (forall a, In a items -> exists b, body a = Return b) ->
  exists bs, for_each body items = Return bs /\ length bs = length items.
Proof.
  intros Hbody.
  destruct (for_each_all body (fun _ _ => True) items) as (bs & Hbs & HF).
  { intros a Ha. destruct (Hbody a Ha) as [b Hb]. eauto. }
  exists bs. split; [exact Hbs|]. symmetry. eapply Forall2_length; eassumption.
Qed.

Lemma sweep_step (M : Model) (t : R) (label : R) :
  exists c,
    (concentrations <~
       lift (calculate_concentration M x_range_sens (Scalar t)) ;;
     Return (label, concentrations)) = Return c.
Proof.
  unfold x_range_sens. rewrite calculate_concentration_grid.
  cbn [lift and_then]. eauto.
Qed.

(** X22.  In every session of the calculator (any sequence of parameter entries,
    failed or not) the model and the dictionary stay in step, so the
    sensitivity analysis never meets a missing key or a rejected model: it
    reports that no model is set exactly when none is, an invalid choice, or
    it plots five curves; its only failure is an analysis time that is not
    a number. *)
Theorem session_sensitivity_analysis (float : string -> option R)
    (self : GroundwaterCalculator) (choice reply : string) :
  reachable float self ->
  in_step self
  /\ match sensitivity_analysis float self choice reply with
     | NoModel => model self = None
     | InvalidChoice =>
         model self <> None
         /\ choice <> "1"%string /\ choice <> "2"%string /\ choice <> "3"%string
     | Plotted curves => model self <> None /\ length curves = 5%nat
     | Failed e =>
         (exists msg, e = Of (ValueError msg))
         /\ reply <> ""%string /\ float reply = None
     end.
Proof.
  intros Hreach. pose proof (reachable_in_step float self Hreach) as Hstep.
  split; [exact Hstep|].
  unfold sensitivity_analysis. unfold in_step in Hstep.
  destruct (model self) as [M|] eqn:EM; [|reflexivity].
  destruct Hstep as (Hv & sl & dl & Hp).
  assert (HvM : forall u' DL' l', 0 <= u' -> 0 < DL' -> 0 <= l' ->
            init (m M) (W M) (n M) u' DL' l'
            = Ok (mkModel (m M) (W M) (n M) u' DL' l')).
  { intros u' DL' l' Hu HD Hl. apply init_valid.
    unfold valid_parameters in *. simpl. lra. }
  assert (Hu : 0 <= u M) by (unfold valid_parameters in Hv; lra).
  assert (HD : 0 < DL M) by (unfold valid_parameters in Hv; lra).
  assert (Hl : 0 <= lambda_decay M) by (unfold valid_parameters in Hv; lra).
  destruct (String.eqb choice "1") eqn:E1.
  { unfold _analyze_velocity_sensitivity. rewrite Hp. simpl getkey.
    cbn [and_then].
    destruct (float_or float reply 100) as [t|e] eqn:Et; cbn [lift and_then].
    2:{ destruct (float_or_raises _ _ _ _ Et) as ([msg ->] & Hne & Hnone).
        split; [eauto | split; assumption]. }
    destruct (for_each_length
                (fun u_val =>
                   model_temp <~ lift (init (m M) (W M) (n M) u_val (DL M) (lambda_decay M)) ;;
                   concentrations <~
                     lift (calculate_concentration model_temp x_range_sens (Scalar t)) ;;
                   Return (u_val, concentrations))
                (map (fun factor => u M * factor) [0.5; 0.8; 1.0; 1.5; 2.0]))
      as (cs & Hcs & Hlen).
    { intros v Hin. rewrite HvM; try assumption.
      - cbn [lift and_then]. apply sweep_step.
      - simpl in Hin. repeat destruct Hin as [<- | Hin]; try contradiction; nra. }
    rewrite Hcs. cbn [and_then]. split; [discriminate | exact Hlen]. }
  destruct (String.eqb choice "2") eqn:E2.
  { unfold _analyze_dispersion_sensitivity. rewrite Hp. simpl getkey.
    cbn [and_then].
    destruct (float_or float reply 100) as [t|e] eqn:Et; cbn [lift and_then].
    2:{ destruct (float_or_raises _ _ _ _ Et) as ([msg ->] & Hne & Hnone).
        split; [eauto | split; assumption]. }
    destruct (for_each_length
                (fun DL_val =>
                   model_temp <~ lift (init (m M) (W M) (n M) (u M) DL_val (lambda_decay M)) ;;
                   concentrations <~
                     lift (calculate_concentration model_temp x_range_sens (Scalar t)) ;;
                   Return (DL_val, concentrations))
                (map (fun factor => DL M * factor) [0.2; 0.5; 1.0; 2.0; 5.0]))
      as (cs & Hcs & Hlen).
    { intros v Hin. rewrite HvM; try assumption.
      - cbn [lift and_then]. apply sweep_step.
      - simpl in Hin. repeat destruct Hin as [<- | Hin]; try contradiction; nra. }
    rewrite Hcs. cbn [and_then]. split; [discriminate | exact Hlen]. }
  destruct (String.eqb choice "3") eqn:E3.
  { unfold _analyze_reaction_sensitivity. rewrite Hp.
    destruct (float_or float reply 100) as [t|e] eqn:Et; cbn [lift and_then].
    2:{ destruct (float_or_raises _ _ _ _ Et) as ([msg ->] & Hne & Hnone).
        split; [eauto | split; assumption]. }
    simpl getkey. cbn [and_then].
    destruct (for_each_length
                (fun lambda_val =>
                   model_temp <~ lift (init (m M) (W M) (n M) (u M) (DL M) lambda_val) ;;
                   concentrations <~
                     lift (calculate_concentration model_temp x_range_sens (Scalar t)) ;;
                   Return (lambda_val, concentrations))
                [0; 0.001; 0.005; 0.01; 0.02])
      as (cs & Hcs & Hlen).
    { intros v Hin. rewrite HvM; try assumption.
      - cbn [lift and_then]. apply sweep_step.
      - simpl in Hin. repeat destruct Hin as [<- | Hin]; try contradiction; lra. }
    rewrite Hcs. cbn [and_then]. split; [discriminate | exact Hlen]. }
  split; [discriminate|].
  repeat split; intros ->; discriminate.
Qed.

Lemma session_sensitivity_analysis_witness :
  reachable (fun _ => None)
    (fst (input_parameters (fun _ => None) new_calculator "" "" "" "" "" "" "" ""))
  /\ in_step
       (fst (input_parameters (fun _ => None) new_calculator "" "" "" "" "" "" "" ""))
  /\ match sensitivity_analysis (fun _ => None)
             (fst (input_parameters (fun _ => None) new_calculator
                     "" "" "" "" "" "" "" "")) "3" "" with
     | NoModel =>
         model (fst (input_parameters (fun _ => None) new_calculator
                       "" "" "" "" "" "" "" "")) = None
     | InvalidChoice =>
         model (fst (input_parameters (fun _ => None) new_calculator
                       "" "" "" "" "" "" "" "")) <> None
         /\ "3"%string <> "1"%string /\ "3"%string <> "2"%string
         /\ "3"%string <> "3"%string
     | Plotted curves =>
         model (fst (input_parameters (fun _ => None) new_calculator
                       "" "" "" "" "" "" "" "")) <> None
         /\ length curves = 5%nat
     | Failed e =>
         (exists msg, e = Of (ValueError msg))
         /\ ""%string <> ""%string /\ (fun _ : string => @None R) ""%string = None
     end.
Proof.
  assert (H : reachable (fun _ => None)
    (fst (input_parameters (fun _ => None) new_calculator "" "" "" "" "" "" "" "")))
    by (apply reach_input, reach_new).
  split; [exact H|].
  exact (session_sensitivity_analysis (fun _ => None) _ "3" "" H).
Defined.

(** ** Scheme one on the front ends' position grid *)



Lemma print_breakthrough_analysis_spec_witness :
  length [1; 2; 3] = length [0; 1; 1 / 10] /\ [0; 1; 1 / 10] <> []
  /\ exists r,
       print_breakthrough_analysis [1; 2; 3] [0; 1; 1 / 10] (1 / 2) (1 / 20) = Ok r
       /\ crossing_reported [1; 2; 3] [0; 1; 1 / 10] (1 / 20) "未检出" (detection_time r)
       /\ crossing_reported [1; 2; 3] [0; 1; 1 / 10] (1 / 2) "未超标" (exceed_time r).
Proof.
  split; [reflexivity|]. split; [discriminate|].
  destruct (print_breakthrough_analysis_spec [1; 2; 3] [0; 1; 1 / 10] (1 / 2) (1 / 20)
              eq_refl ltac:(discriminate)) as (r & Hr & Hd & He & _).
  exists r. repeat split; assumption.
Defined.
